(** * The sprite-classification notebook: training loop, evaluator and
      their metric-logging contract.

    Shallow embedding of [train_model] and [validate_model] of
    [01_intro_starter.ipynb].  Python integers are [Z]; tensor scalars and
    the floats computed from them are idealised as exact rationals [Q],
    while the quotient of two integers is the double nearest to it; a
    Python dict with string keys is a [gmap string _]; exceptions (those
    of the division, of the [nn.Dropout] and [Adam] constructors and of
    batch normalisation on a batch of one) are an explicit outcome and
    the effects of the notebook (the torch random generator, the [config]
    namespace object and the sequence of calls received by [wandb]) are one
    state threaded through a small state-and-exception monad. *)

From Stdlib Require Import ZArith QArith Qround Qabs Lia Lqa.
From stdpp Require Import base list gmap strings.

Local Open Scope Z_scope.

(** ** Python basics *)

Inductive exn := ZeroDivisionError | ValueError | OverflowError.

Inductive outcome (A : Type) : Type :=
| Return (a : A)
| Raise (e : exn).
Arguments Return {A} a.
Arguments Raise {A} e.

(** [len(x)] *)
Definition len {A} (l : list A) : Z := Z.of_nat (length l).

(** [range(n)]: empty when [n <= 0]. *)
Definition range (n : Z) : list Z := Z.of_nat <$> seq 0 (Z.to_nat n).

(** [enumerate(xs)] *)
Definition enumerate {A} (xs : list A) : list (Z * A) :=
  zip (range (len xs)) xs.

(** [a / b] on Python numbers: true division, raising on a zero divisor. *)
Definition true_div (a b : Q) : outcome Q :=
  if Qeq_bool b 0 then Raise ZeroDivisionError else Return (a / b)%Q.

(** [math.ceil] *)
Definition math_ceil (q : Q) : Z := Qceiling q.

(** *** Division of two integers

    [a / b] on two Python integers is the double nearest to the exact
    quotient (ties to even), [ZeroDivisionError] for a zero divisor and
    [OverflowError] when that double would not be finite. *)

Definition pow2 (p : Z) : Q :=
  if 0 <=? p then inject_Z (2 ^ p) else 1 # Z.to_pos (2 ^ (- p)).

Definition round_half_even (q : Q) : Z :=
  let f := Qfloor q in
  match (q - inject_Z f ?= 1 # 2)%Q with
  | Lt => f
  | Gt => f + 1
  | Eq => if Z.even f then f else f + 1
  end.

(** The [e] with [2^e <= q < 2^(e+1)], for [0 < q]. *)
Definition binade (q : Q) : Z :=
  if Qle_bool 1 q then Z.log2 (Qfloor q) else - Z.log2_up (Qceiling (/ q)).

(** Nearest number with a 53-bit significand and an exponent not below
    that of the subnormals, for [0 < q]. *)
Definition round_positive (q : Q) : Q :=
  let p := Z.max (binade q) (-1022) - 52 in
  (inject_Z (round_half_even (q / pow2 p)) * pow2 p)%Q.

Definition round_binary64 (q : Q) : Q :=
  match (q ?= 0)%Q with
  | Eq => 0%Q
  | Gt => round_positive q
  | Lt => (- round_positive (- q))%Q
  end.

Definition int_true_div (a b : Z) : outcome Q :=
  if b =? 0 then Raise ZeroDivisionError
  else
    let r := round_binary64 (inject_Z a / inject_Z b) in
    if Qle_bool (pow2 1024) (Qabs r) then Raise OverflowError else Return r.

(** ** Hyperparameters and metric records *)

(** The [SimpleNamespace] built in the third cell. *)
Record Configuration := {
  epochs : Z;
  batch_size : Z;
  lr : Q;
  dropout : Q;
  slice_size : Z;
  valid_pct : Q
}.

(** Values stored in a metric dict. *)
Inductive scalar :=
| SInt (z : Z)
| SFloat (q : Q).

(** What the tracking client receives, in call order. *)
Inductive Call :=
| Init (project : string) (config : Configuration)
| Log (metrics : gmap string scalar)
| Finish.

(** ** Data loaders *)

Section Batching.
Context {A : Type}.

(** Consecutive slices of [n] elements, the last one possibly shorter.
    The recursion is on a bound [k] that [length l] always meets when
    [0 < n]. *)
Fixpoint chunks_upto (k n : nat) (l : list A) : list (list A) :=
  match k with
  | O => []
  | S k' =>
      match l with
      | [] => []
      | _ :: _ => take n l :: chunks_upto k' n (drop n l)
      end
  end.

Definition chunks (n : nat) (l : list A) : list (list A) :=
  chunks_upto (length l) n l.
End Batching.

(** ** The classifier's argmax *)

(** [torch.max(row)] index: the first position holding the maximum. *)
Fixpoint argmax_from (best_i : Z) (best : Q) (i : Z) (row : list Q) : Z :=
  match row with
  | [] => best_i
  | x :: row' =>
      if Qle_bool x best
      then argmax_from best_i best (i + 1) row'
      else argmax_from i x (i + 1) row'
  end.

Definition argmax (row : list Q) : Z :=
  match row with
  | [] => 0
  | x :: row' => argmax_from 0 x 1 row'
  end.

(** [(predicted == labels).sum().item()] *)
Definition count_equal (predicted labels : list Z) : Z :=
  len (filter (λ pl, pl.1 = pl.2) (zip predicted labels)).

(** ** The torch operations the notebook calls

    They are library code: the development is parametric in them. *)
Record Torch := {
  Image : Type;
  (** parameters and buffers of the [nn.Sequential] *)
  Params : Type;
  (** the global random generator *)
  Generator : Type;
  (** a batch of logits together with its autograd graph *)
  Outputs : Type;
  (** a scalar loss tensor *)
  Loss : Type;
  (** Adam's moment estimates *)
  OptState : Type;
  (** an initialised [nn.Linear] *)
  Layer : Type;
  (** [nn.Linear(in_features, out_features)]: the weights are drawn from
      the generator *)
  init_linear : Z → Z → Generator → Layer * Generator;
  (** the [nn.Sequential] of [get_model] around its two linear layers,
      with dropout probability [p]; the other layers start from fixed
      values *)
  sequential : Layer → Q → Layer → Params;
  (** the base seed a [DataLoader] iterator draws when it is created *)
  next_seed : Generator → Generator;
  (** forward pass in training mode on a batch that batch normalisation
      accepts: dropout draws from the generator and batch normalisation
      updates its running statistics *)
  forward_train : Params → Generator → list Image → Outputs * Params * Generator;
  (** forward pass in evaluation mode *)
  forward_eval : Params → list Image → Outputs;
  (** [outputs.data]: one row of logits per example *)
  data : Outputs → list (list Q);
  (** [nn.CrossEntropyLoss()] *)
  CrossEntropyLoss : Outputs → list Z → Loss;
  (** the number held by a loss tensor *)
  item : Loss → Q;
  (** [Adam(params, lr)] *)
  adam_init : Params → OptState;
  (** [zero_grad(); loss.backward(); optimizer.step()] *)
  adam_step : Q → OptState → Params → Loss → OptState * Params
}.

Section Notebook.
Variable T : Torch.

Definition Example : Type := Image T * Z.
Definition Batch : Type := list (Image T) * list Z.

(** A [DataLoader] over a dataset, with default collation. *)
Record DataLoader := {
  dataset : list Example;
  dl_batch_size : nat
}.

Definition collate (xs : list Example) : Batch := (xs.*1, xs.*2).

(** The batches a loader yields, in order. *)
Definition batches (dl : DataLoader) : list Batch :=
  collate <$> chunks (dl_batch_size dl) (dataset dl).

(** Modelled from the spec: the Data Provider [get_dataloaders] of the
    [utilities] module, which is not among the sources.  The spec gives
    [get_dataloaders(data_dir, batch_size, slice_size, valid_fraction)]
    returning the training and validation batch streams "already split
    and batched", the slice size being "the number of examples sampled
    from the full dataset"; its example scenario (slice 10000, fraction
    0.2, batch 128) has 8000 training examples in ceil(8000/128) batches.
    Here the slice is the first [slice_size] stored examples, its last
    floor(valid_fraction * slice_size) examples are the validation
    partition, and a batch size below 1 or a slice larger than the store
    is an error of the provider. *)
Definition get_dataloaders (data_dir : list Example)
    (batch_size slice_size : Z) (valid_pct : Q)
  : outcome (DataLoader * DataLoader) :=
  if bool_decide (batch_size ≤ 0) then Raise ValueError
  else if bool_decide (slice_size < 0 ∨ len data_dir < slice_size)
  then Raise ValueError
  else
    let ds := take (Z.to_nat slice_size) data_dir in
    let n_valid := Z.to_nat (Qfloor (valid_pct * inject_Z slice_size)) in
    let n_train := (length ds - n_valid)%nat in
    Return ({| dataset := take n_train ds;
               dl_batch_size := Z.to_nat batch_size |},
            {| dataset := drop n_train ds;
               dl_batch_size := Z.to_nat batch_size |}).

(** ** State and effects *)

Record World := {
  (** the [config] namespace object handed to [train_model] *)
  w_config : Configuration;
  (** torch's random generator *)
  w_generator : Generator T;
  (** calls received by the tracking client so far *)
  w_wandb : list Call
}.

Definition M (A : Type) : Type := World → outcome A * World.

Definition ret {A} (a : A) : M A := λ w, (Return a, w).

Definition bind {A B} (c : M A) (k : A → M B) : M B :=
  λ w, match c w with
       | (Return a, w') => k a w'
       | (Raise e, w') => (Raise e, w')
       end.

Definition lift {A} (o : outcome A) : M A := λ w, (o, w).

Definition raise {A} (e : exn) : M A := lift (Raise e).

#[local] Instance M_ret : MRet M := @ret.
#[local] Instance M_bind : MBind M := λ A B k c, bind c k.

(** A [for] loop whose body updates the loop-carried variables [s]. *)
Fixpoint for_each {A S} (xs : list A) (body : S → A → M S) (s : S) : M S :=
  match xs with
  | [] => ret s
  | x :: xs' => s' ← body s x; for_each xs' body s'
  end.

(** [config.<field>] *)
Definition attr {X} (field : Configuration → X) : M X :=
  λ w, (Return (field (w_config w)), w).

(** *** The tracking client *)

Definition wandb_call (c : Call) : M () :=
  λ w, (Return (),
        {| w_config := w_config w;
           w_generator := w_generator w;
           w_wandb := w_wandb w ++ [c] |}).

Definition wandb_init (project : string) : M () :=
  config ← attr id; wandb_call (Init project config).

Definition wandb_log (metrics : gmap string scalar) : M () :=
  wandb_call (Log metrics).

Definition wandb_finish : M () := wandb_call Finish.

(** *** The model *)

(** An [nn.Module]: its mode flag and its parameters. *)
Record Model := {
  training : bool;
  params : Params T
}.

(** [model.train()] and [model.eval()] *)
Definition train (m : Model) : Model :=
  {| training := true; params := params m |}.
Definition eval (m : Model) : Model :=
  {| training := false; params := params m |}.

Definition with_generator {X} (f : Generator T → X * Generator T) : M X :=
  λ w, let '(x, g) := f (w_generator w) in
       (Return x,
        {| w_config := w_config w;
           w_generator := g;
           w_wandb := w_wandb w |}).

Definition INPUT_SIZE : Z := 3 * 16 * 16.
Definition OUTPUT_SIZE : Z := 5.
Definition HIDDEN_SIZE : Z := 256.

(** [nn.Dropout(p)] accepts probabilities between 0 and 1. *)
Definition dropout_ok (p : Q) : bool := Qle_bool 0 p && Qle_bool p 1.

(** [get_model(dropout)]: the layers are built in the order they are
    written, so the first linear layer has drawn its weights when
    [nn.Dropout] refuses its probability with [ValueError]; modules start
    in training mode. *)
Definition get_model (dropout : Q) : M Model :=
  l1 ← with_generator (init_linear T INPUT_SIZE HIDDEN_SIZE);
  if dropout_ok dropout then
    l2 ← with_generator (init_linear T HIDDEN_SIZE OUTPUT_SIZE);
    ret {| training := true; params := sequential T l1 dropout l2 |}
  else raise ValueError.

(** [model(images)]: the forward pass of the current mode, and the module
    as the pass leaves it.  In training mode [nn.BatchNorm1d] refuses a
    batch of a single example with [ValueError], before anything is drawn
    or updated. *)
Definition call (model : Model) (images : list (Image T))
  : M (Outputs T * Model) :=
  if training model then
    if len images =? 1 then raise ValueError
    else
      with_generator (λ g,
        let '(outputs, p, g') := forward_train T (params model) g images in
        ((outputs, {| training := true; params := p |}), g'))
  else
    ret (forward_eval T (params model) images, model).

(** [enumerate(dl)]: creating the iterator draws its base seed from the
    generator, also when the dataset is empty. *)
Definition iterate (dl : DataLoader) : M (list (Z * Batch)) :=
  with_generator (λ g, (enumerate (batches dl), next_seed T g)).

(** [Adam(model.parameters(), lr=...)] *)
Record Optimizer := {
  opt_lr : Q;
  opt_state : OptState T
}.

(** [Adam] refuses a negative learning rate with [ValueError]. *)
Definition lr_ok (lr : Q) : bool := Qle_bool 0 lr.

Definition Adam (model : Model) (lr : Q) : outcome Optimizer :=
  if lr_ok lr
  then Return {| opt_lr := lr; opt_state := adam_init T (params model) |}
  else Raise ValueError.

(** [optimizer.zero_grad(); train_loss.backward(); optimizer.step()]:
    the step writes the parameters of the module in place. *)
Definition backward_step (optimizer : Optimizer) (model : Model)
    (train_loss : Loss T) : Optimizer * Model :=
  let '(st, p) :=
    adam_step T (opt_lr optimizer) (opt_state optimizer) (params model)
      train_loss in
  ({| opt_lr := opt_lr optimizer; opt_state := st |},
   {| training := training model; params := p |}).

(** ** [validate_model]

    [model.eval()] switches the caller's module to evaluation mode and
    the passes run there leave it as it is; the loop carries the module
    next to [val_loss] and [correct].  The caller's next use of the
    module is after its own [model.train()], so only the pair is handed
    back.  Both divisions are by [len(valid_dl.dataset)]; the loss and the
    accuracy are idealised as exact rationals. *)
Definition validate_model (model : Model) (valid_dl : DataLoader)
    (loss_func : Outputs T → list Z → Loss T) : M (Q * Q) :=
  let model := eval model in
  let val_loss := 0%Q in
  let correct := 0 in
  its ← iterate valid_dl;
  '(model, val_loss, correct) ←
    for_each its
      (λ '(model, val_loss, correct) '(i, (images, labels)),
         '(outputs, model) ← call model images;
         let val_loss :=
           (val_loss + item T (loss_func outputs labels) * inject_Z (len labels))%Q in
         let predicted := argmax <$> data T outputs in
         let correct := correct + count_equal predicted labels in
         ret (model, val_loss, correct))
      (model, val_loss, correct);
  let n := inject_Z (len (dataset valid_dl)) in
  mean_loss ← lift (true_div val_loss n);
  accuracy ← lift (true_div (inject_Z correct) n);
  ret (mean_loss, accuracy).

(** ** [train_model] *)

(** The stored sprites that [DATA_DIR] names. *)
Variable DATA_DIR : list Example.

(** [math.ceil(len(train_dl.dataset) / config.batch_size)]: the quotient
    of the two integers is a double. *)
Definition n_steps_per_epoch (train_dl : DataLoader) (batch_size : Z)
  : outcome Z :=
  match int_true_div (len (dataset train_dl)) batch_size with
  | Return q => Return (math_ceil q)
  | Raise e => Raise e
  end.

(** The dict logged at a training step. *)
Definition train_metrics (train_loss : Q) (epoch example_ct : Z)
  : gmap string scalar :=
  {[ "train/train_loss" := SFloat train_loss;
     "train/epoch" := SInt (epoch + 1);
     "train/example_ct" := SInt example_ct ]}.

(** The dict logged after a validation pass. *)
Definition val_metrics (val_loss accuracy : Q) : gmap string scalar :=
  {[ "val/val_loss" := SFloat val_loss;
     "val/val_accuracy" := SFloat accuracy ]}.

(** Loop-carried variables of the training loops. *)
Definition Vars : Type := Model * Optimizer * Z.

(** Body of the loop over [enumerate(train_dl)]. *)
Definition train_step (loss_func : Outputs T → list Z → Loss T)
    (epoch : Z) (vars : Vars) (it : Z * Batch) : M Vars :=
  let '(model, optimizer, example_ct) := vars in
  let '(step, (images, labels)) := it in
  '(outputs, model) ← call model images;
  let train_loss := loss_func outputs labels in
  let '(optimizer, model) := backward_step optimizer model train_loss in
  let example_ct := example_ct + len images in
  let metrics := train_metrics (item T train_loss) epoch example_ct in
  wandb_log metrics;;
  ret (model, optimizer, example_ct).

(** Body of the loop over [range(config.epochs)]. *)
Definition train_epoch (train_dl valid_dl : DataLoader)
    (loss_func : Outputs T → list Z → Loss T)
    (vars : Vars) (epoch : Z) : M Vars :=
  let '(model, optimizer, example_ct) := vars in
  let model := train model in
  its ← iterate train_dl;
  '(model, optimizer, example_ct) ←
    for_each its (train_step loss_func epoch)
      (model, optimizer, example_ct);
  '(val_loss, accuracy) ← validate_model model valid_dl loss_func;
  wandb_log (val_metrics val_loss accuracy);;
  ret (model, optimizer, example_ct).

(** [train_model(config)]: the [config] argument is the namespace object
    held in the world.  [n_steps_per_epoch] is computed and not used again;
    moving tensors to [DEVICE] changes no value and is left out. *)
Definition train_model : M () :=
  wandb_init "dlai_intro";;
  bs ← attr batch_size;
  ss ← attr slice_size;
  vp ← attr valid_pct;
  '(train_dl, valid_dl) ← lift (get_dataloaders DATA_DIR bs ss vp);
  bs ← attr batch_size;
  n_steps ← lift (n_steps_per_epoch train_dl bs);
  d ← attr dropout;
  model ← get_model d;
  let loss_func := CrossEntropyLoss T in
  lr ← attr lr;
  optimizer ← lift (Adam model lr);
  let example_ct := 0 in
  n ← attr epochs;
  _ ← for_each (range n) (train_epoch train_dl valid_dl loss_func)
        (model, optimizer, example_ct);
  wandb_finish.

(** ** Reading a run off the tracking client *)

(** The calls a computation added when it took [w] to [w']. *)
Definition emitted (w w' : World) : list Call :=
  drop (length (w_wandb w)) (w_wandb w').

(** The same world with [h] as earlier history of the tracking client. *)
Definition prepend (h : list Call) (w : World) : World :=
  {| w_config := w_config w;
     w_generator := w_generator w;
     w_wandb := h ++ w_wandb w |}.

(** The world once a loader's iterator has drawn its base seed. *)
Definition seeded (w : World) : World :=
  {| w_config := w_config w;
     w_generator := next_seed T (w_generator w);
     w_wandb := w_wandb w |}.

(** A computation that never inspects what the tracking client already
    holds. *)
Definition oblivious {A} (c : M A) : Prop :=
  ∀ h w, c (prepend h w) = let '(r, w') := c w in (r, prepend h w').

(** Whatever the outcome, the world reached is [R]-related to the first. *)
Definition respects (R : relation World) {A} (c : M A) : Prop :=
  ∀ w, R w (c w).2.

(** The [config] object holds the same fields in both worlds. *)
Definition same_config : relation World :=
  λ w w', w_config w' = w_config w.

(** Number of examples in a list of batches. *)
Definition total_size (bs : list Batch) : Z :=
  foldr (λ b acc, len b.1 + acc) 0 bs.

(** Values taken by [example_ct] while the batches [bs] are processed,
    starting from [ct]. *)
Fixpoint example_cts (ct : Z) (bs : list Batch) : list Z :=
  match bs with
  | [] => []
  | b :: bs' => (ct + len b.1) :: example_cts (ct + len b.1) bs'
  end.

(** No batch of a single example: batch normalisation accepts them all
    in training mode. *)
Definition trainable (bs : list Batch) : bool :=
  forallb (λ b : Batch, negb (len b.1 =? 1)) bs.

(** The batches before the first one of a single example. *)
Fixpoint until_single (bs : list Batch) : list Batch :=
  match bs with
  | [] => []
  | b :: bs' => if len b.1 =? 1 then [] else b :: until_single bs'
  end.

(** The batches a run over [n] epochs goes through, in order. *)
Definition processed (train_dl : DataLoader) (n : Z) : list Batch :=
  concat (replicate (Z.to_nat n) (batches train_dl)).

(** ** What [validate_model] computes, in the spec's words *)

(** Sum over the batches of per-batch loss times batch size. *)
Definition weighted_loss_sum (model : Model)
    (loss_func : Outputs T → list Z → Loss T) (bs : list Batch) : Q :=
  foldr Qplus 0%Q
    ((λ b : Batch,
        item T (loss_func (forward_eval T (params model) b.1) b.2)
        * inject_Z (len b.2))%Q <$> bs).

(** The validation examples, each with the logits the model gives it and
    its label. *)
Definition scored_examples (model : Model) (bs : list Batch)
  : list (list Q * Z) :=
  bs ≫= λ b, zip (data T (forward_eval T (params model) b.1)) b.2.

(** Number of examples whose argmax over logits equals their label. *)
Definition correct_examples (model : Model) (bs : list Batch) : Z :=
  len (filter (λ ex : list Q * Z, argmax ex.1 = ex.2) (scored_examples model bs)).
End Notebook.

Arguments dataset {T} _.
Arguments dl_batch_size {T} _.
Arguments batches {T} _.
Arguments w_config {T} _.
Arguments w_generator {T} _.
Arguments w_wandb {T} _.
Arguments training {T} _.
Arguments params {T} _.
Arguments ret {T A} _.
Arguments bind {T A B} _ _.
Arguments lift {T A} _.
Arguments for_each {T A S} _ _ _.
Arguments attr {T X} _.
Arguments wandb_call {T} _.
Arguments wandb_init {T} _.
Arguments wandb_log {T} _.
Arguments wandb_finish {T}.
Arguments with_generator {T X} _.
Arguments get_model {T} _.
Arguments raise {T A} _.
Arguments iterate {T} _.
Arguments train {T} _.
Arguments eval {T} _.
Arguments Adam {T} _ _.
Arguments backward_step {T} _ _ _.
Arguments train_epoch {T} _ _ _ _ _.
Arguments respects {T} _ {A} _.
Arguments same_config {T} _ _.
Arguments emitted {T} _ _.
Arguments prepend {T} _ _.
Arguments seeded {T} _.
Arguments oblivious {T A} _.
Arguments total_size {T} _.
Arguments example_cts {T} _ _.
Arguments processed {T} _ _.
Arguments trainable {T} _.
Arguments until_single {T} _.
Arguments validate_model {T} _ _ _.
Arguments n_steps_per_epoch {T} _ _.
Arguments train_step {T} _ _ _ _.
Arguments call {T} _ _.
Arguments weighted_loss_sum {T} _ _ _.
Arguments scored_examples {T} _ _.
Arguments correct_examples {T} _ _.

(** ** The shape of a run *)

(** What a call to the tracking client is, read off its payload. *)
Inductive kind :=
| KInit
| KTrain (epoch example_ct : Z)
| KVal
| KFinish
| KOther.

#[global] Instance kind_eq_dec : EqDecision kind.
Proof. solve_decision. Defined.

Definition call_kind (c : Call) : kind :=
  match c with
  | Init _ _ => KInit
  | Finish => KFinish
  | Log m =>
      match m !! "train/train_loss", m !! "train/epoch", m !! "train/example_ct" with
      | Some (SFloat _), Some (SInt e), Some (SInt ct) => KTrain e ct
      | _, _, _ =>
          match m !! "val/val_loss", m !! "val/val_accuracy" with
          | Some (SFloat _), Some (SFloat _) => KVal
          | _, _ => KOther
          end
      end
  end.

Definition is_log (c : Call) : bool :=
  match c with Log _ => true | _ => false end.

Definition is_train (k : kind) : bool :=
  match k with KTrain _ _ => true | _ => false end.

Definition is_val (k : kind) : bool :=
  match k with KVal => true | _ => false end.

(** The running example counts that were logged. *)
Definition logged_example_cts (ks : list kind) : list Z :=
  omap (λ k, match k with KTrain _ ct => Some ct | _ => None end) ks.

(** Validation accuracy of the last validation record. *)
Definition final_accuracy (calls : list Call) : option scalar :=
  last (omap (λ c, match c with
                   | Log m => m !! "val/val_accuracy"
                   | _ => None
                   end) calls).

Section Shape.
Context {T : Torch}.

(** One epoch: a training record per batch, in batch order, then the
    validation record. *)
Definition epoch_kinds (ct : Z) (bs : list (Batch T)) (epoch : Z) : list kind :=
  (KTrain (epoch + 1) <$> example_cts ct bs) ++ [KVal].

(** The epochs [es] one after the other. *)
Fixpoint epochs_kinds (ct : Z) (bs : list (Batch T)) (es : list Z) : list kind :=
  match es with
  | [] => []
  | e :: es' => epoch_kinds ct bs e ++ epochs_kinds (ct + total_size bs) bs es'
  end.

(** A complete run over [n] epochs. *)
Definition run_kinds (bs : list (Batch T)) (n : Z) : list kind :=
  KInit :: epochs_kinds 0 bs (range n) ++ [KFinish].
End Shape.

(** A metric record, as opposed to the opening and closing calls. *)
Definition is_record (k : kind) : bool :=
  match k with KInit | KFinish => false | _ => true end.

(** ** Statements about whole runs *)

Section RunStatements.
Variable T : Torch.
Variable DATA_DIR : list (Example T).

(** The record count of the spec's testable properties, for the run
    started in [w]: epochs times steps per epoch, plus one validation
    record per epoch. *)
Definition record_count_claim (w : World T) : Prop :=
  let cfg := w_config w in
  ∀ tr va steps,
    get_dataloaders T DATA_DIR (batch_size cfg) (slice_size cfg) (valid_pct cfg)
      = Return (tr, va) →
    n_steps_per_epoch tr (batch_size cfg) = Return steps →
    len (filter is_log (emitted w (train_model T DATA_DIR w).2))
      = epochs cfg * steps + epochs cfg.

(** The order of the calls of the run started in [w]: epoch after epoch,
    each epoch's training records in step order and then its validation
    record, and [finish] once, last. *)
Definition call_order_claim (w : World T) : Prop :=
  let cfg := w_config w in
  ∀ tr va,
    get_dataloaders T DATA_DIR (batch_size cfg) (slice_size cfg) (valid_pct cfg)
      = Return (tr, va) →
    let ks := call_kind <$> emitted w (train_model T DATA_DIR w).2 in
    ks = run_kinds (batches tr) (epochs cfg)
    ∧ length (filter (λ k, k = KFinish) ks) = 1%nat
    ∧ last ks = Some KFinish.
End RunStatements.

(** ** A small instance to run the notebook on

    Images are integers, the "network" adds its single weight to the pixel
    and the class-1 logit is the constant 3. *)
Definition toy : Torch := {|
  Image := Z;
  Params := Z;
  Generator := Z;
  Outputs := list (list Q);
  Loss := Q;
  OptState := Z;
  Layer := Z;
  init_linear := λ _ _ g, (g, g + 1);
  sequential := λ l1 _ l2, l1 + l2;
  next_seed := λ g, g + 7;
  forward_train := λ p g images,
    ((λ x, [inject_Z (x + p); inject_Z g]) <$> images, p, g + 1);
  forward_eval := λ p images, (λ x, [inject_Z (x + p); 3%Q]) <$> images;
  data := λ o, o;
  CrossEntropyLoss := λ o _, (inject_Z (len o) + (1 # 2))%Q;
  item := λ l, l;
  adam_init := λ _, 0;
  adam_step := λ _ st p _, (st + 1, p - 1)
|}.

Definition toy_data (n : nat) : list (Example toy) :=
  (λ i, (Z.of_nat i, Z.of_nat i `mod` 2)) <$> seq 0 n.

Definition toy_config (n : Z) (vp : Q) : Configuration :=
  {| epochs := n; batch_size := 2; lr := 1 # 10; dropout := 1 # 2;
     slice_size := 7; valid_pct := vp |}.

(** The same with a slice of 6 examples: no batch of 2 is left short. *)
Definition toy_config_even (n : Z) (vp : Q) : Configuration :=
  {| epochs := n; batch_size := 2; lr := 1 # 10; dropout := 1 # 2;
     slice_size := 6; valid_pct := vp |}.

Definition toy_world (cfg : Configuration) (h : list Call) : World toy :=
  {| w_config := cfg; w_generator := (5 : Generator toy); w_wandb := h |}.

Definition toy_loader : DataLoader toy :=
  {| dataset := toy_data 5; dl_batch_size := 2 |}.

Definition toy_model : Model toy := {| training := true; params := (1 : Params toy) |}.

(** ** The notebook's cells *)

(** [config = SimpleNamespace(...)], the third cell. *)
Definition config : Configuration :=
  {| epochs := 2; batch_size := 128; lr := 1 # 100000; dropout := 1 # 2;
     slice_size := 10000; valid_pct := 1 # 5 |}.

(** Assignments to the attributes the later cells write. *)
Definition set_epochs (v : Z) (c : Configuration) : Configuration :=
  {| epochs := v; batch_size := batch_size c; lr := lr c;
     dropout := dropout c; slice_size := slice_size c;
     valid_pct := valid_pct c |}.

Definition set_lr (v : Q) (c : Configuration) : Configuration :=
  {| epochs := epochs c; batch_size := batch_size c; lr := v;
     dropout := dropout c; slice_size := slice_size c;
     valid_pct := valid_pct c |}.

Definition set_dropout (v : Q) (c : Configuration) : Configuration :=
  {| epochs := epochs c; batch_size := batch_size c; lr := lr c;
     dropout := v; slice_size := slice_size c;
     valid_pct := valid_pct c |}.

(** The configurations [wandb.init] was handed, in call order. *)
Definition init_configs (calls : list Call) : list Configuration :=
  omap (λ c, match c with Init _ cfg => Some cfg | _ => None end) calls.

(** The epoch numbers that were logged, in call order. *)
Definition logged_epochs (ks : list kind) : list Z :=
  omap (λ k, match k with KTrain e _ => Some e | _ => None end) ks.

Section Session.
Variable T : Torch.
Variable DATA_DIR : list (Example T).

(** [config.<field> = v]: the namespace object is updated in place. *)
Definition setattr (update : Configuration → Configuration) : M T () :=
  λ w, (Return (),
        {| w_config := update (w_config w);
           w_generator := w_generator w;
           w_wandb := w_wandb w |}).

(** The cells with execution counts 8 to 12, run in that order on the
    [config] object of the third cell; an exception ends the session. *)
Definition notebook : M T () :=
  bind (setattr (λ _, config)) (λ _,
  bind (train_model T DATA_DIR) (λ _,
  bind (setattr (set_lr (1 # 10000))) (λ _,
  bind (train_model T DATA_DIR) (λ _,
  bind (setattr (set_lr (1 # 10000))) (λ _,
  bind (train_model T DATA_DIR) (λ _,
  bind (setattr (set_dropout (1 # 10))) (λ _,
  bind (setattr (set_epochs 1)) (λ _,
  bind (train_model T DATA_DIR) (λ _,
  bind (setattr (set_lr (1 # 1000))) (λ _,
  train_model T DATA_DIR)))))))))).

(** What a run logs and how it ends, as a function of the hyperparameters.
    Before the first epoch: the provider's exception, the one of the
    division for [n_steps_per_epoch], or [ValueError] for a dropout
    probability or a learning rate that torch refuses.  In the first
    epoch: [ValueError] at the first batch of a single example, or
    [ZeroDivisionError] after the epoch's training records when there is
    nothing to validate on.  The complete sequence otherwise. *)
Definition run_shape (cfg : Configuration) : outcome () * list kind :=
  match
    get_dataloaders T DATA_DIR (batch_size cfg) (slice_size cfg) (valid_pct cfg)
  with
  | Raise e => (Raise e, [KInit])
  | Return (tr, va) =>
      match n_steps_per_epoch tr (batch_size cfg) with
      | Raise e => (Raise e, [KInit])
      | Return _ =>
          if negb (dropout_ok (dropout cfg) && lr_ok (lr cfg))
          then (Raise ValueError, [KInit])
          else if negb (bool_decide (0 < epochs cfg))
          then (Return (), run_kinds (batches tr) (epochs cfg))
          else if negb (trainable (batches tr))
          then (Raise ValueError,
                KInit :: (KTrain 1 <$> example_cts 0 (until_single (batches tr))))
          else
            match dataset va with
            | [] =>
                (Raise ZeroDivisionError,
                 KInit :: (KTrain 1 <$> example_cts 0 (batches tr)))
            | _ :: _ => (Return (), run_kinds (batches tr) (epochs cfg))
            end
      end
  end.

(** ** Per-example quantities over a whole dataset *)

(** Number of examples the scorer classifies as labelled. *)
Definition dataset_correct (score : Image T → list Q)
    (ds : list (Example T)) : Z :=
  len (filter (λ ex : Example T, argmax (score ex.1) = ex.2) ds).

(** A module that, in evaluation mode, scores each example on its own. *)
Definition scores_examplewise (p : Params T) (score : Image T → list Q) : Prop :=
  ∀ images, data T (forward_eval T p images) = score <$> images.
End Session.

Arguments setattr {T} _.
Arguments dataset_correct {T} _ _.
Arguments scores_examplewise {T} _ _.

Definition toy_score (p : Z) (x : Z) : list Q := [inject_Z (x + p); 3%Q].

(** * Proofs *)

(** ** Batching *)

Section BatchingFacts.
Context {A : Type}.
Implicit Types l : list A.

Lemma chunks_upto_nil k n : chunks_upto k n (@nil A) = [].
Proof. by destruct k. Qed.

Lemma chunks_upto_concat k n l :
  (0 < n)%nat → (length l ≤ k)%nat → concat (chunks_upto k n l) = l.
Proof.
  intros Hn. revert l. induction k as [|k IH]; intros l Hk.
  - destruct l; [done | simpl in Hk; lia].
  - destruct l as [|a l]; [done |].
    cbn [chunks_upto concat]. rewrite IH.
    + apply take_drop.
    + rewrite length_drop. simpl in *. lia.
Qed.

Lemma chunks_upto_length k n l :
  (0 < n)%nat → (length l ≤ k)%nat →
  len (chunks_upto k n l) = (len l + Z.of_nat n - 1) `div` Z.of_nat n.
Proof.
  intros Hn. revert l. induction k as [|k IH]; intros l Hk.
  - destruct l; [| simpl in Hk; lia].
    unfold len; simpl. symmetry. apply Z.div_small. lia.
  - destruct l as [|a l].
    { unfold len; simpl. symmetry. apply Z.div_small. lia. }
    cbn [chunks_upto]. unfold len in *. rewrite length_cons, Nat2Z.inj_succ, IH.
    2:{ rewrite length_drop. simpl in *. lia. }
    rewrite length_drop.
    set (L := length (a :: l)). assert (1 ≤ L)%nat by (subst L; simpl; lia).
    destruct (decide (L ≤ n)%nat) as [Hle|Hgt].
    + replace (L - n)%nat with 0%nat by lia.
      rewrite Z.div_small by lia.
      apply (Z.div_unique _ _ (Z.succ 0) (Z.of_nat L - 1)); lia.
    + rewrite Nat2Z.inj_sub by lia.
      replace (Z.of_nat L + Z.of_nat n - 1)
        with (Z.of_nat L - Z.of_nat n + Z.of_nat n - 1 + 1 * Z.of_nat n) by lia.
      rewrite Z.div_add by lia. lia.
Qed.

Lemma chunks_concat n l : (0 < n)%nat → concat (chunks n l) = l.
Proof. intros. by apply chunks_upto_concat. Qed.

Lemma chunks_length n l :
  (0 < n)%nat → len (chunks n l) = (len l + Z.of_nat n - 1) `div` Z.of_nat n.
Proof. intros. by apply chunks_upto_length. Qed.

Lemma chunks_nil_inv n l : chunks n l = [] → l = [].
Proof. unfold chunks. by destruct l. Qed.
End BatchingFacts.

(** ** Python arithmetic *)

Lemma math_ceil_true_div (a b : Z) :
  0 < b → math_ceil (inject_Z a / inject_Z b) = (a + b - 1) `div` b.
Proof.
  intros Hb. unfold math_ceil, Qceiling, Qfloor.
  destruct b as [|p|p]; try lia.
  cbn. rewrite ?Z.mul_1_r, ?Pos.mul_1_l.
  assert (Hp : 0 < Z.pos p) by lia.
  pose proof (Z.div_mod (- a) (Z.pos p) ltac:(lia)) as Hdm.
  pose proof (Z.mod_pos_bound (- a) (Z.pos p) Hp) as Hm.
  apply (Z.div_unique _ _ _ (Z.pos p - 1 - (- a) `mod` Z.pos p)); lia.
Qed.

Lemma round_half_even_bounds (x : Q) :
  (inject_Z (round_half_even x) <= x + (1 # 2))%Q
  ∧ (x - (1 # 2) <= inject_Z (round_half_even x))%Q.
Proof.
  unfold round_half_even.
  pose proof (Qfloor_le x) as Hlo. pose proof (Qlt_floor x) as Hhi.
  rewrite inject_Z_plus in Hhi. change (inject_Z 1) with 1%Q in Hhi.
  destruct (x - inject_Z (Qfloor x) ?= 1 # 2)%Q eqn:Hc.
  - apply Qeq_alt in Hc.
    destruct (Z.even (Qfloor x)); rewrite ?inject_Z_plus;
      change (inject_Z 1) with 1%Q; split; lra.
  - apply Qlt_alt in Hc. split; lra.
  - apply Qgt_alt in Hc. rewrite inject_Z_plus.
    change (inject_Z 1) with 1%Q. split; lra.
Qed.

Lemma Qceiling_unique (x : Q) (c : Z) :
  (inject_Z (c - 1) < x)%Q → (x <= inject_Z c)%Q → Qceiling x = c.
Proof.
  intros Hlo Hhi.
  pose proof (Qle_ceiling x) as H1. pose proof (Qceiling_lt x) as H2.
  assert (c - 1 < Qceiling x).
  { rewrite Zlt_Qlt. eapply Qlt_le_trans; eauto. }
  assert (Qceiling x - 1 < c).
  { rewrite Zlt_Qlt. eapply Qlt_le_trans; eauto. }
  lia.
Qed.

Lemma round_core (a b s c n : Z) :
  0 < b → 0 < s → b < 2 * s → (c - 1) * b < a → a ≤ c * b →
  2 * b * n ≤ 2 * a * s + b → 2 * a * s - b ≤ 2 * b * n →
  (c - 1) * s < n ∧ n ≤ c * s.
Proof. intros. split; nia. Qed.

Lemma pow2_nonpos (p : Z) :
  p ≤ 0 → ∃ s : positive, Z.pos s = 2 ^ (- p) ∧ pow2 p = 1 # s.
Proof.
  intros Hp. assert (Hs : 0 < 2 ^ (- p)) by (apply Z.pow_pos_nonneg; lia).
  exists (Z.to_pos (2 ^ (- p))). split; [by rewrite Z2Pos.id |].
  unfold pow2. destruct (0 <=? p) eqn:H0; [| done].
  apply Z.leb_le in H0. by replace p with 0 by lia.
Qed.

Lemma binade_bounds (a : Z) (b : positive) :
  0 < a < 2 ^ 53 → Z.pos b < 2 ^ 53 →
  let e := Z.max (binade (a # b)) (-1022) in
  e ≤ 52 ∧ Z.pos b < 2 * 2 ^ (52 - e).
Proof.
  intros Ha Hb e. subst e. unfold binade.
  destruct (Qle_bool 1 (a # b)).
  - change (Qfloor (a # b)) with (a `div` Z.pos b).
    pose proof (Z.log2_nonneg (a `div` Z.pos b)) as Hnn.
    rewrite Z.max_l by lia.
    pose proof (Z.mul_div_le a (Z.pos b) ltac:(lia)) as Hdiv.
    destruct (decide (0 < a `div` Z.pos b)) as [Hf|Hf].
    + pose proof (Z.log2_spec _ Hf) as [Hlog _].
      set (l := Z.log2 (a `div` Z.pos b)) in *.
      assert (Hl : l ≤ 52).
      { destruct (decide (l ≤ 52)) as [|Hbig]; [done |].
        pose proof (Z.pow_le_mono_r 2 53 l ltac:(lia) ltac:(lia)). nia. }
      split; [done |].
      assert (Hsplit : 2 ^ 53 = 2 ^ l * (2 * 2 ^ (52 - l))).
      { rewrite <- (Z.pow_succ_r 2 (52 - l)) by lia.
        rewrite <- Z.pow_add_r by lia. f_equal. lia. }
      assert (0 < 2 ^ l) by (apply Z.pow_pos_nonneg; lia).
      nia.
    + rewrite Z.log2_nonpos by lia. split; [lia |].
      change (2 * 2 ^ (52 - 0)) with (2 ^ 53). done.
  - pose proof (Z.log2_up_nonneg (Qceiling (/ (a # b)))) as Hnn.
    set (l := Z.log2_up (Qceiling (/ (a # b)))) in *.
    split; [lia |].
    pose proof (Z.pow_le_mono_r 2 52 (52 - Z.max (- l) (-1022))
                  ltac:(lia) ltac:(lia)) as Hmono.
    change (2 ^ 53) with (2 * 2 ^ 52) in Hb. lia.
Qed.

Lemma round_positive_ceiling (a : Z) (b : positive) :
  0 < a < 2 ^ 53 → Z.pos b < 2 ^ 53 →
  (0 <= round_positive (a # b))%Q
  ∧ (round_positive (a # b) <= inject_Z (2 ^ 53))%Q
  ∧ Qceiling (round_positive (a # b)) = Qceiling (a # b).
Proof.
  intros Ha Hb. unfold round_positive.
  destruct (binade_bounds a b Ha Hb) as [He Hs]. cbv zeta in He, Hs.
  set (e := Z.max (binade (a # b)) (-1022)) in *.
  destruct (pow2_nonpos (e - 52) ltac:(lia)) as (s & Hs2 & ->).
  replace (- (e - 52)) with (52 - e) in Hs2 by lia. rewrite <- Hs2 in Hs.
  set (x := ((a # b) / (1 # s))%Q).
  assert (Hx : (x == (a * Z.pos s # b))%Q).
  { subst x. unfold Qeq, Qdiv, Qmult, Qinv. cbn. lia. }
  destruct (round_half_even_bounds x) as [Hhi Hlo].
  set (n := round_half_even x) in *.
  rewrite Hx in Hhi, Hlo. unfold Qle in Hhi, Hlo. cbn in Hhi, Hlo.
  pose proof (Qle_ceiling (a # b)) as Hc1.
  pose proof (Qceiling_lt (a # b)) as Hc2.
  set (c := Qceiling (a # b)) in *.
  unfold Qle in Hc1. unfold Qlt in Hc2. cbn in Hc1, Hc2.
  destruct (round_core a (Z.pos b) (Z.pos s) c n) as [Hn1 Hn2]; try lia.
  assert (Hr : (inject_Z n * (1 # s) == n # s)%Q).
  { unfold Qeq, Qmult. cbn. lia. }
  assert (Hc : c ≤ 2 ^ 53) by nia.
  split; [| split].
  - rewrite Hr. unfold Qle. cbn. nia.
  - rewrite Hr. unfold Qle. cbn. nia.
  - apply Qceiling_unique; rewrite Hr; [unfold Qlt | unfold Qle]; cbn; lia.
Qed.

(** Below 2^53 the rounding of the quotient to a double does not move its
    ceiling. *)
Lemma int_true_div_ceiling (a b : Z) :
  0 ≤ a < 2 ^ 53 → 0 < b < 2 ^ 53 →
  ∃ r, int_true_div a b = Return r ∧ math_ceil r = (a + b - 1) `div` b.
Proof.
  intros Ha Hb. rewrite <- math_ceil_true_div by lia.
  unfold int_true_div. rewrite (proj2 (Z.eqb_neq b 0)) by lia.
  destruct b as [|b|b]; try lia.
  change (inject_Z a / inject_Z (Z.pos b))%Q with (a * 1 # b).
  rewrite Z.mul_1_r. unfold round_binary64.
  destruct (decide (a = 0)) as [->|Hne].
  - exists 0%Q. done.
  - assert (Hgt : ((a # b) ?= 0)%Q = Gt).
    { apply Qgt_alt. unfold Qlt. cbn. lia. }
    rewrite Hgt.
    destruct (round_positive_ceiling a b ltac:(lia) ltac:(lia))
      as (H0 & Hmax & Hceil).
    exists (round_positive (a # b)). split; [| exact Hceil].
    rewrite Qabs_pos by done.
    destruct (Qle_bool (pow2 1024) (round_positive (a # b))) eqn:Hov; [| done].
    apply Qle_bool_iff in Hov.
    assert (Hlt : (inject_Z (2 ^ 53) < pow2 1024)%Q) by reflexivity.
    exfalso. apply (Qlt_irrefl (pow2 1024)).
    eapply Qle_lt_trans; [exact Hov |]. eapply Qle_lt_trans; eauto.
Qed.

Lemma true_div_nonzero (a b : Q) :
  ¬ (b == 0)%Q → true_div a b = Return (a / b)%Q.
Proof.
  intros Hb. unfold true_div.
  destruct (Qeq_bool b 0) eqn:E; [| done].
  apply Qeq_bool_eq in E. contradiction.
Qed.

Lemma inject_Z_len_nonzero {A} (l : list A) :
  l ≠ [] → ¬ (inject_Z (len l) == 0)%Q.
Proof.
  intros Hl Heq. destruct l; [done |].
  unfold len, Qeq in Heq; simpl in Heq. lia.
Qed.

Lemma range_length n : length (range n) = Z.to_nat n.
Proof. unfold range. by rewrite length_fmap, length_seq. Qed.

Lemma enumerate_snd {A} (xs : list A) : (enumerate xs).*2 = xs.
Proof.
  unfold enumerate. apply snd_zip.
  rewrite range_length. unfold len. lia.
Qed.

Lemma enumerate_length {A} (xs : list A) : length (enumerate xs) = length xs.
Proof. by rewrite <- (enumerate_snd xs) at 2; rewrite length_fmap. Qed.

(** ** Running the monad *)

Section RunFacts.
Variable T : Torch.

Lemma run_bind {A B} (c : M T A) (k : A → M T B) (w : World T) :
  bind c k w =
    match c w with
    | (Return a, w') => k a w'
    | (Raise e, w') => (Raise e, w')
    end.
Proof. reflexivity. Qed.

(** *** Properties of the final world that compose *)

Section Respects.
Variable R : relation (World T).
Context `{!PreOrder R}.

Lemma respects_ret {A} (a : A) : respects R (ret a).
Proof. intros w. simpl. reflexivity. Qed.

Lemma respects_lift {A} (o : outcome A) : respects R (lift o).
Proof. intros w. simpl. reflexivity. Qed.

Lemma respects_attr {X} (f : Configuration → X) : respects R (attr f).
Proof. intros w. simpl. reflexivity. Qed.

Lemma respects_bind {A B} (c : M T A) (k : A → M T B) :
  respects R c → (∀ a, respects R (k a)) → respects R (bind c k).
Proof.
  intros Hc Hk w. rewrite run_bind.
  specialize (Hc w). destruct (c w) as [[a|e] w1]; simpl in *; [| done].
  etrans; [exact Hc | apply Hk].
Qed.

Lemma respects_for_each {A S} (xs : list A) (body : S → A → M T S) s :
  (∀ s x, respects R (body s x)) → respects R (for_each xs body s).
Proof.
  intros Hbody. revert s. induction xs as [|x xs IH]; intros s.
  - apply respects_ret.
  - apply respects_bind; [apply Hbody | intros s'; apply IH].
Qed.
End Respects.

Ltac unmonad := unfold mbind, M_bind in *.

(** *** The configuration object is only read *)

#[local] Instance same_config_preorder : PreOrder (@same_config T).
Proof.
  split.
  - by intros w.
  - intros w1 w2 w3 H12 H23. unfold same_config in *. congruence.
Qed.

Lemma wandb_call_config c : respects same_config (wandb_call (T:=T) c).
Proof. by intros w. Qed.

Lemma with_generator_config {X} (f : Generator T → X * Generator T) :
  respects same_config (with_generator f).
Proof. intros w. unfold with_generator. by destruct (f _). Qed.

Lemma call_config (m : Model T) images : respects same_config (call m images).
Proof.
  unfold call. destruct (training m); [destruct (len images =? 1) |].
  - apply respects_lift, _.
  - apply with_generator_config.
  - apply respects_ret, _.
Qed.

Lemma iterate_config (dl : DataLoader T) : respects same_config (iterate dl).
Proof. apply with_generator_config. Qed.

Lemma validate_model_config (m : Model T) dl lf :
  respects same_config (validate_model m dl lf).
Proof.
  unfold validate_model. unmonad.
  apply respects_bind; [apply _ | apply iterate_config | intros its].
  apply respects_bind; [apply _ | |].
  - apply respects_for_each; [apply _ |].
    intros [[m' vl] c] [i [images labels]].
    apply respects_bind; [apply _ | apply call_config |].
    intros [o m'']. apply respects_ret, _.
  - intros [[m' vl] c].
    apply respects_bind; [apply _ | apply respects_lift, _ |]. intros ?.
    apply respects_bind; [apply _ | apply respects_lift, _ |]. intros ?.
    apply respects_ret, _.
Qed.

Lemma train_step_config lf epoch vars it :
  respects same_config (train_step (T:=T) lf epoch vars it).
Proof.
  destruct vars as [[m o] ct], it as [i [images labels]].
  unfold train_step. unmonad.
  apply respects_bind; [apply _ | apply call_config |].
  intros [outputs m']. destruct (backward_step _ _ _) as [o' m''].
  apply respects_bind; [apply _ | apply wandb_call_config |].
  intros ?. apply respects_ret, _.
Qed.

Lemma train_epoch_config tr va lf vars epoch :
  respects same_config (train_epoch (T:=T) tr va lf vars epoch).
Proof.
  destruct vars as [[m o] ct]. unfold train_epoch. unmonad.
  apply respects_bind; [apply _ | apply iterate_config | intros its].
  apply respects_bind; [apply _ | |].
  - apply respects_for_each; [apply _ |]. intros; apply train_step_config.
  - intros [[m' o'] ct'].
    apply respects_bind; [apply _ | apply validate_model_config |].
    intros [vl acc].
    apply respects_bind; [apply _ | apply wandb_call_config |].
    intros ?. apply respects_ret, _.
Qed.

Lemma train_model_config DATA_DIR :
  respects same_config (train_model T DATA_DIR).
Proof.
  unfold train_model, wandb_init, get_model, wandb_finish. unmonad.
  repeat first
    [ apply respects_attr, _
    | apply respects_lift, _
    | apply respects_ret, _
    | apply wandb_call_config
    | apply with_generator_config
    | apply respects_for_each; [apply _ | intros; apply train_epoch_config]
    | apply respects_bind; [apply _ | | intros ?]
    | match goal with
      | |- respects _ (let '(_, _) := ?p in _) => destruct p
      | |- respects _ (if ?b then _ else _) => destruct b
      end ].
Qed.

(** *** The tracking client is only written *)

Lemma oblivious_ret {A} (a : A) : oblivious (ret (T:=T) a).
Proof. by intros h w. Qed.

Lemma oblivious_lift {A} (o : outcome A) : oblivious (lift (T:=T) o).
Proof. by intros h w. Qed.

Lemma oblivious_attr {X} (f : Configuration → X) : oblivious (attr (T:=T) f).
Proof. by intros h w. Qed.

Lemma oblivious_wandb_call c : oblivious (wandb_call (T:=T) c).
Proof.
  intros h w. unfold wandb_call, prepend; simpl. by rewrite app_assoc.
Qed.

Lemma oblivious_with_generator {X} (f : Generator T → X * Generator T) :
  oblivious (with_generator f).
Proof. intros h w. unfold with_generator; simpl. by destruct (f _). Qed.

Lemma oblivious_bind {A B} (c : M T A) (k : A → M T B) :
  oblivious c → (∀ a, oblivious (k a)) → oblivious (bind c k).
Proof.
  intros Hc Hk h w. rewrite !run_bind, Hc.
  destruct (c w) as [[a|e] w1]; [apply Hk | done].
Qed.

Lemma oblivious_for_each {A S} (xs : list A) (body : S → A → M T S) s :
  (∀ s x, oblivious (body s x)) → oblivious (for_each xs body s).
Proof.
  intros Hbody. revert s. induction xs as [|x xs IH]; intros s.
  - apply oblivious_ret.
  - apply oblivious_bind; [apply Hbody | intros s'; apply IH].
Qed.

Lemma oblivious_call (m : Model T) images : oblivious (call m images).
Proof.
  unfold call. destruct (training m); [destruct (len images =? 1) |].
  - apply oblivious_lift.
  - apply oblivious_with_generator.
  - apply oblivious_ret.
Qed.

Lemma oblivious_iterate (dl : DataLoader T) : oblivious (iterate dl).
Proof. apply oblivious_with_generator. Qed.

Ltac oblivious_step :=
  first
    [ apply oblivious_attr
    | apply oblivious_lift
    | apply oblivious_ret
    | apply oblivious_wandb_call
    | apply oblivious_with_generator
    | apply oblivious_call
    | apply oblivious_iterate
    | apply oblivious_bind; [| intros ?]
    | match goal with
      | |- oblivious (let '(_, _) := ?p in _) => destruct p
      | |- oblivious (match ?p with (_, _) => _ end) => destruct p
      | |- oblivious (if ?b then _ else _) => destruct b
      end ].

Lemma oblivious_validate_model (m : Model T) dl lf :
  oblivious (validate_model m dl lf).
Proof.
  unfold validate_model. unmonad.
  apply oblivious_bind; [apply oblivious_iterate | intros its].
  apply oblivious_bind.
  - apply oblivious_for_each. intros [[m' vl] c] [i [images labels]].
    repeat oblivious_step.
  - intros [[m' vl] c]. repeat oblivious_step.
Qed.

Lemma oblivious_train_step lf epoch vars it :
  oblivious (train_step (T:=T) lf epoch vars it).
Proof.
  destruct vars as [[m o] ct], it as [i [images labels]].
  unfold train_step, wandb_log. unmonad. repeat oblivious_step.
Qed.

Lemma oblivious_train_epoch tr va lf vars epoch :
  oblivious (train_epoch (T:=T) tr va lf vars epoch).
Proof.
  destruct vars as [[m o] ct]. unfold train_epoch, wandb_log. unmonad.
  apply oblivious_bind; [apply oblivious_iterate | intros its].
  apply oblivious_bind.
  - apply oblivious_for_each. intros; apply oblivious_train_step.
  - intros [[m' o'] ct'].
    apply oblivious_bind; [apply oblivious_validate_model |].
    intros [vl acc]. repeat oblivious_step.
Qed.

Lemma oblivious_train_model DATA_DIR : oblivious (train_model T DATA_DIR).
Proof.
  unfold train_model, wandb_init, get_model, wandb_finish. unmonad.
  repeat first
    [ apply oblivious_for_each; intros; apply oblivious_train_epoch
    | oblivious_step ].
Qed.

Lemma emitted_app (w : World T) g calls :
  emitted w {| w_config := w_config w; w_generator := g;
               w_wandb := w_wandb w ++ calls |} = calls.
Proof. unfold emitted; simpl. apply drop_app_length. Qed.

Lemma emitted_prepend h (w w' : World T) :
  emitted (prepend h w) (prepend h w') = emitted w w'.
Proof.
  unfold emitted, prepend; simpl.
  rewrite length_app, <- drop_drop. by rewrite drop_app_length.
Qed.

(** *** The evaluator *)

Lemma count_equal_argmax (rows : list (list Q)) (labels : list Z) :
  count_equal (argmax <$> rows) labels =
    len (filter (λ ex : list Q * Z, argmax ex.1 = ex.2) (zip rows labels)).
Proof.
  unfold count_equal, len. f_equal.
  revert labels. induction rows as [|r rows IH]; intros [|y labels]; try done.
  cbn [fmap list_fmap zip zip_with]. rewrite !filter_cons. cbn [fst snd].
  case_decide; simpl; by rewrite IH.
Qed.

Lemma correct_examples_cons (m : Model T) (b : Batch T) bs :
  correct_examples m (b :: bs) =
    count_equal (argmax <$> data T (forward_eval T (params m) b.1)) b.2
    + correct_examples m bs.
Proof.
  unfold correct_examples, scored_examples.
  rewrite bind_cons, filter_app. unfold len at 1.
  rewrite length_app, Nat2Z.inj_add, count_equal_argmax. done.
Qed.

Lemma run_iterate {B} (dl : DataLoader T) (k : list (Z * Batch T) → M T B) w :
  bind (iterate dl) k w = k (enumerate (batches dl)) (seeded w).
Proof. reflexivity. Qed.

Lemma validate_model_run (m : Model T) dl lf w :
  ∃ vl, (vl == weighted_loss_sum m lf (batches dl))%Q ∧
    validate_model m dl lf w =
      (match true_div vl (inject_Z (len (dataset dl))) with
       | Return mean_loss =>
           match true_div (inject_Z (correct_examples m (batches dl)))
                   (inject_Z (len (dataset dl))) with
           | Return accuracy => Return (mean_loss, accuracy)
           | Raise e => Raise e
           end
       | Raise e => Raise e
       end, seeded w).
Proof.
  unfold validate_model. unmonad. rewrite run_iterate. cbv beta.
  match goal with
  | |- context [for_each _ ?body _] =>
      assert (Hloop : ∀ (its' : list (Z * (list (Image T) * list Z))) vl c w0,
        ∃ vl', (vl' == vl + weighted_loss_sum m lf its'.*2)%Q ∧
          for_each its' body (eval m, vl, c) w0 =
            (Return (eval m, vl', c + correct_examples m its'.*2), w0))
  end.
  { induction its' as [|[i [images labels]] its' IH]; intros vl c w0.
    - exists vl. split; [change (vl == vl + 0)%Q; ring |].
      simpl. unfold correct_examples, len; simpl. by rewrite Z.add_0_r.
    - cbn [for_each]. unmonad. rewrite run_bind. cbn -[for_each].
      match goal with
      | |- context [for_each its' _ (_, ?vl1, ?c1)] =>
          destruct (IH vl1 c1 w0) as (vl' & Hvl & ->)
      end.
      exists vl'. split.
      + rewrite Hvl. unfold weighted_loss_sum. simpl. ring.
      + rewrite correct_examples_cons. simpl. by rewrite Z.add_assoc. }
  destruct (Hloop (enumerate (batches dl)) 0%Q 0 (seeded w)) as (vl & Hvl & Hrun).
  rewrite enumerate_snd in Hvl, Hrun.
  exists vl. split; [rewrite Hvl; ring |].
  rewrite run_bind, Hrun. rewrite Z.add_0_l.
  rewrite !run_bind. unfold lift.
  destruct (true_div vl _); [| done].
  rewrite !run_bind.
  destruct (true_div (inject_Z _) _); done.
Qed.

(** *** The data loaders *)

Lemma get_dataloaders_inv data_dir bs ss vp (tr va : DataLoader T) :
  get_dataloaders T data_dir bs ss vp = Return (tr, va) →
  0 < bs ∧ dl_batch_size tr = Z.to_nat bs ∧ dl_batch_size va = Z.to_nat bs.
Proof.
  unfold get_dataloaders. repeat case_bool_decide; try done.
  intros [= <- <-]. simpl. lia.
Qed.

Lemma batches_length (dl : DataLoader T) :
  (0 < dl_batch_size dl)%nat →
  len (batches dl) =
    (len (dataset dl) + Z.of_nat (dl_batch_size dl) - 1)
      `div` Z.of_nat (dl_batch_size dl).
Proof.
  intros Hn. unfold batches, len at 1. rewrite length_fmap.
  by apply chunks_length.
Qed.

(** Line 120 computes the number of batches of an epoch, for sizes a double
    holds exactly. *)
Lemma n_steps_per_epoch_run (train_dl : DataLoader T) (bs : Z) :
  0 < bs < 2 ^ 53 → dl_batch_size train_dl = Z.to_nat bs →
  len (dataset train_dl) < 2 ^ 53 →
  n_steps_per_epoch train_dl bs = Return (len (batches train_dl)).
Proof.
  intros Hbs Hdl Hlen. unfold n_steps_per_epoch.
  destruct (int_true_div_ceiling (len (dataset train_dl)) bs) as (r & -> & ->);
    [unfold len in *; lia | done |].
  rewrite batches_length by lia. rewrite Hdl, Z2Nat.id by lia. done.
Qed.

Lemma batches_nil (dl : DataLoader T) : dataset dl = [] → batches dl = [].
Proof. unfold batches, chunks. by intros ->. Qed.

(** *** The training loops *)

Lemma call_kind_train loss e ct :
  call_kind (Log (train_metrics loss e ct)) = KTrain (e + 1) ct.
Proof. reflexivity. Qed.

Lemma call_kind_val vl acc : call_kind (Log (val_metrics vl acc)) = KVal.
Proof. reflexivity. Qed.

Lemma world_app_nil (w : World T) :
  {| w_config := w_config w; w_generator := w_generator w;
     w_wandb := w_wandb w ++ [] |} = w.
Proof. destruct w; simpl. by rewrite app_nil_r. Qed.

Lemma call_frame (m : Model T) images w r w1 :
  call m images w = (r, w1) →
  w_config w1 = w_config w ∧ w_wandb w1 = w_wandb w.
Proof.
  unfold call. destruct (training m); [destruct (len images =? 1) |].
  - by intros [= <- <-].
  - unfold with_generator. destruct (forward_train T _ _ _) as [[o p] g'].
    by intros [= <- <-].
  - by intros [= <- <-].
Qed.

Lemma call_run_train (m : Model T) images w :
  training m = true → len images ≠ 1 →
  ∃ o m' g',
    training m' = true ∧
    call m images w =
      (Return (o, m'),
       {| w_config := w_config w; w_generator := g'; w_wandb := w_wandb w |}).
Proof.
  intros Hm Hlen. unfold call. rewrite Hm.
  apply Z.eqb_neq in Hlen. rewrite Hlen.
  unfold with_generator.
  destruct (forward_train T _ _ _) as [[o p] g'].
  eexists o, {| training := true; params := p |}, g'. by split.
Qed.

Lemma call_run_single (m : Model T) images w :
  training m = true → len images = 1 →
  call m images w = (Raise ValueError, w).
Proof.
  intros Hm Hlen. unfold call. rewrite Hm.
  apply Z.eqb_eq in Hlen. by rewrite Hlen.
Qed.

Lemma train_step_run lf e (m : Model T) o ct (it : Z * Batch T) w :
  training m = true → len it.2.1 ≠ 1 →
  ∃ m' o' g' loss,
    training m' = true ∧
    train_step lf e (m, o, ct) it w =
      (Return (m', o', ct + len it.2.1),
       {| w_config := w_config w; w_generator := g';
          w_wandb := w_wandb w ++ [Log (train_metrics loss e (ct + len it.2.1))] |}).
Proof.
  intros Hm Hlen. destruct it as [i [images labels]].
  unfold train_step. unmonad. rewrite run_bind.
  destruct (call_run_train m images w Hm Hlen) as (out & m1 & g' & Hm1 & ->).
  destruct (backward_step _ _ _) as [o' m'] eqn:Hstep.
  rewrite run_bind. simpl. eexists m', _, _, _. split; [| done].
  unfold backward_step in Hstep. destruct (adam_step T _ _ _ _).
  by injection Hstep as <- <-.
Qed.

Lemma train_step_single lf e (m : Model T) o ct (it : Z * Batch T) w :
  training m = true → len it.2.1 = 1 →
  train_step lf e (m, o, ct) it w = (Raise ValueError, w).
Proof.
  intros Hm Hlen. destruct it as [i [images labels]].
  unfold train_step. unmonad.
  by rewrite run_bind, (call_run_single m images w Hm Hlen).
Qed.

Lemma train_loop_run lf e (its : list (Z * Batch T)) :
  ∀ (m : Model T) o ct w,
  training m = true →
  ∃ r g' calls,
    for_each its (train_step lf e) (m, o, ct) w =
      (r, {| w_config := w_config w; w_generator := g';
             w_wandb := w_wandb w ++ calls |})
    ∧ call_kind <$> calls
      = KTrain (e + 1) <$> example_cts ct (until_single its.*2)
    ∧ (trainable its.*2 = true →
       ∃ m' o', r = Return (m', o', ct + total_size its.*2))
    ∧ (trainable its.*2 = false → r = Raise ValueError).
Proof.
  induction its as [|it its IH]; intros m o ct w Hm.
  - exists (Return (m, o, ct)), (w_generator w), [].
    split; [simpl; unfold ret; by rewrite world_app_nil |].
    split; [done |]. split; [| done].
    intros _. exists m, o. simpl. by rewrite Z.add_0_r.
  - cbn [fmap list_fmap until_single trainable forallb].
    destruct (len it.2.1 =? 1) eqn:Hlen.
    + apply Z.eqb_eq in Hlen.
      exists (Raise ValueError), (w_generator w), [].
      split.
      { cbn [for_each]. unmonad.
        rewrite run_bind, (train_step_single lf e m o ct it w Hm Hlen).
        by rewrite world_app_nil. }
      split; [done |]. split; done.
    + apply Z.eqb_neq in Hlen.
      destruct (train_step_run lf e m o ct it w Hm Hlen)
        as (m1 & o1 & g1 & loss & Hm1 & Hstep).
      match type of Hstep with
      | _ = (_, ?w1) =>
          destruct (IH m1 o1 (ct + len it.2.1) w1 Hm1)
            as (r & g' & calls & Hrest & Hk & Hok & Hbad)
      end.
      exists r, g', (Log (train_metrics loss e (ct + len it.2.1)) :: calls).
      split.
      { cbn [for_each]. unmonad. rewrite run_bind, Hstep, Hrest.
        simpl. by rewrite <- app_assoc. }
      split.
      { cbn [example_cts]. rewrite !fmap_cons, call_kind_train, Hk. done. }
      cbn [negb andb]. split; [| exact Hbad].
      intros Htr. destruct (Hok Htr) as (m' & o' & ->).
      exists m', o'. do 2 f_equal.
      change (total_size (it.2 :: its.*2)) with (len it.2.1 + total_size its.*2).
      lia.
Qed.

Lemma validate_model_nonempty (m : Model T) dl lf w :
  dataset dl ≠ [] →
  ∃ vl acc, validate_model m dl lf w = (Return (vl, acc), seeded w).
Proof.
  intros Hne. destruct (validate_model_run m dl lf w) as (vl & _ & ->).
  rewrite !true_div_nonzero by by apply inject_Z_len_nonzero.
  by eexists _, _.
Qed.

Lemma validate_model_empty (m : Model T) dl lf w :
  dataset dl = [] →
  validate_model m dl lf w = (Raise ZeroDivisionError, seeded w).
Proof.
  intros Hnil. destruct (validate_model_run m dl lf w) as (vl & _ & ->).
  by rewrite Hnil.
Qed.

Lemma train_epoch_run (tr va : DataLoader T) lf m o ct e w :
  ∃ r g' calls,
    train_epoch tr va lf (m, o, ct) e w =
      (r, {| w_config := w_config w; w_generator := g';
             w_wandb := w_wandb w ++ calls |})
    ∧ (trainable (batches tr) = false →
       r = Raise ValueError
       ∧ call_kind <$> calls
         = KTrain (e + 1) <$> example_cts ct (until_single (batches tr)))
    ∧ (trainable (batches tr) = true → dataset va = [] →
       r = Raise ZeroDivisionError
       ∧ call_kind <$> calls = KTrain (e + 1) <$> example_cts ct (batches tr))
    ∧ (trainable (batches tr) = true → dataset va ≠ [] →
       (∃ m' o', r = Return (m', o', ct + total_size (batches tr)))
       ∧ call_kind <$> calls = epoch_kinds ct (batches tr) e).
Proof.
  destruct (train_loop_run lf e (enumerate (batches tr)) (train m) o ct
              (seeded w) eq_refl)
    as (r & g' & calls & Hloop & Hk & Hok & Hbad).
  rewrite enumerate_snd in Hk, Hok, Hbad. cbn [seeded w_config w_wandb] in Hloop.
  assert (Hfull : trainable (batches tr) = true →
                  until_single (batches tr) = batches tr).
  { generalize (batches tr). intros bs. induction bs as [|b bs IH]; [done |].
    cbn [trainable forallb until_single]. destruct (len b.1 =? 1); [done |].
    cbn [negb andb]. intros Htr. by rewrite IH. }
  unfold train_epoch. unmonad. rewrite run_iterate. cbv beta.
  rewrite run_bind, Hloop.
  destruct (trainable (batches tr)) eqn:Htr.
  - destruct (Hok eq_refl) as (m' & o' & ->). rewrite Hfull in Hk by done.
    destruct (dataset va) as [|x xs] eqn:Hva.
    + rewrite run_bind, validate_model_empty by done.
      eexists _, _, calls. split; [reflexivity |].
      split; [done |]. split; [done |]. done.
    + assert (Hne : dataset va ≠ []) by (by rewrite Hva).
      destruct (validate_model_nonempty m' va lf
                  {| w_config := w_config w; w_generator := g';
                     w_wandb := w_wandb w ++ calls |} Hne)
        as (vl & acc & Hval).
      rewrite run_bind, Hval, run_bind.
      eexists _, _, (calls ++ [Log (val_metrics vl acc)]).
      split; [simpl; by rewrite app_assoc |].
      split; [done |]. split; [done |]. intros _ _.
      split; [by eexists _, _ |].
      unfold epoch_kinds. by rewrite fmap_app, Hk.
  - rewrite (Hbad eq_refl).
    eexists _, _, calls. split; [reflexivity |].
    split; [done |]. split; done.
Qed.

Lemma epochs_loop_run (tr va : DataLoader T) lf (es : list Z) :
  trainable (batches tr) = true →
  dataset va ≠ [] →
  ∀ m o ct w,
  ∃ vars' g' calls,
    for_each es (train_epoch tr va lf) (m, o, ct) w =
      (Return vars',
       {| w_config := w_config w; w_generator := g';
          w_wandb := w_wandb w ++ calls |})
    ∧ call_kind <$> calls = epochs_kinds ct (batches tr) es.
Proof.
  intros Htr Hne. induction es as [|e es IH]; intros m o ct w.
  - exists (m, o, ct), (w_generator w), []. split; [| done].
    simpl. unfold ret. by rewrite world_app_nil.
  - destruct (train_epoch_run tr va lf m o ct e w)
      as (r & g1 & calls1 & Hepoch & _ & _ & Hok).
    destruct (Hok Htr Hne) as ((m1 & o1 & ->) & Hk1).
    match type of Hepoch with
    | _ = (_, ?w1) =>
        destruct (IH m1 o1 (ct + total_size (batches tr)) w1)
          as (vars' & g' & calls & Hrest & Hk)
    end.
    exists vars', g', (calls1 ++ calls). split.
    + cbn [for_each]. unmonad. rewrite run_bind, Hepoch, Hrest.
      simpl. by rewrite app_assoc.
    + rewrite fmap_app, Hk1, Hk. done.
Qed.

(** *** The whole run *)

Section Run.
Variable DATA_DIR : list (Example T).
Variable w : World T.
Local Abbreviation cfg := (w_config w).
Local Abbreviation loaders :=
  (get_dataloaders T DATA_DIR (batch_size cfg) (slice_size cfg) (valid_pct cfg)).

Lemma get_model_run d (w0 : World T) :
  ∃ m g',
    get_model d w0 =
      (if dropout_ok d then Return m else Raise ValueError,
       {| w_config := w_config w0; w_generator := g'; w_wandb := w_wandb w0 |}).
Proof.
  unfold get_model, with_generator. unmonad. rewrite run_bind.
  destruct (init_linear T INPUT_SIZE HIDDEN_SIZE (w_generator w0)) as [l1 g1].
  destruct (dropout_ok d).
  - rewrite run_bind. cbn [w_config w_generator w_wandb].
    destruct (init_linear T HIDDEN_SIZE OUTPUT_SIZE g1) as [l2 g2].
    by eexists _, _.
  - by exists {| training := true; params := sequential T l1 d l1 |}, g1.
Qed.

Lemma train_model_unfold :
  train_model T DATA_DIR w =
    let w1 := {| w_config := w_config w; w_generator := w_generator w;
                 w_wandb := w_wandb w ++ [Init "dlai_intro" cfg] |} in
    match loaders with
    | Raise e => (Raise e, w1)
    | Return (tr, va) =>
        match n_steps_per_epoch tr (batch_size cfg) with
        | Raise e => (Raise e, w1)
        | Return _ =>
            match get_model (dropout cfg) w1 with
            | (Raise e, w2) => (Raise e, w2)
            | (Return model, w2) =>
                match Adam model (lr (w_config w2)) with
                | Raise e => (Raise e, w2)
                | Return optimizer =>
                    match
                      for_each (range (epochs (w_config w2)))
                        (train_epoch tr va (CrossEntropyLoss T))
                        (model, optimizer, 0) w2
                    with
                    | (Return _, w3) => wandb_finish w3
                    | (Raise e, w3) => (Raise e, w3)
                    end
                end
            end
        end
    end.
Proof.
  unfold train_model, wandb_init. unmonad.
  cbv beta iota zeta delta
    [bind attr lift wandb_call w_config w_generator w_wandb id].
  destruct (get_dataloaders T DATA_DIR _ _ _) as [[tr va]|e]; [| done].
  destruct (n_steps_per_epoch tr _); [| done].
  destruct (get_model _ _) as [[model|e] w2]; [| done].
  destruct (Adam model _); [| done].
  by destruct (for_each _ _ _ _) as [[vars|e] w3].
Qed.

Lemma train_model_no_loaders e :
  loaders = Raise e →
  train_model T DATA_DIR w =
    (Raise e,
     {| w_config := w_config w; w_generator := w_generator w;
        w_wandb := w_wandb w ++ [Init "dlai_intro" cfg] |}).
Proof. intros Hdl. rewrite train_model_unfold. cbv zeta. by rewrite Hdl. Qed.

Lemma train_model_no_steps tr va e :
  loaders = Return (tr, va) →
  n_steps_per_epoch tr (batch_size cfg) = Raise e →
  train_model T DATA_DIR w =
    (Raise e,
     {| w_config := w_config w; w_generator := w_generator w;
        w_wandb := w_wandb w ++ [Init "dlai_intro" cfg] |}).
Proof.
  intros Hdl Hsteps. rewrite train_model_unfold. cbv zeta.
  by rewrite Hdl, Hsteps.
Qed.

Lemma train_model_refused tr va steps :
  loaders = Return (tr, va) →
  n_steps_per_epoch tr (batch_size cfg) = Return steps →
  dropout_ok (dropout cfg) && lr_ok (lr cfg) = false →
  ∃ g',
    train_model T DATA_DIR w =
      (Raise ValueError,
       {| w_config := w_config w; w_generator := g';
          w_wandb := w_wandb w ++ [Init "dlai_intro" cfg] |}).
Proof.
  intros Hdl Hsteps Hbad. rewrite train_model_unfold. cbv zeta.
  rewrite Hdl, Hsteps.
  match goal with
  | |- context [get_model ?d ?w1] =>
      destruct (get_model_run d w1) as (m & g' & ->)
  end.
  cbn [w_config w_generator w_wandb].
  destruct (dropout_ok (dropout cfg)); [| by eexists].
  cbn [andb] in Hbad. unfold Adam. rewrite Hbad. by eexists.
Qed.

Lemma train_model_enter tr va steps :
  loaders = Return (tr, va) →
  n_steps_per_epoch tr (batch_size cfg) = Return steps →
  dropout_ok (dropout cfg) && lr_ok (lr cfg) = true →
  ∃ m o g1,
    train_model T DATA_DIR w =
      match
        for_each (range (epochs cfg))
          (train_epoch tr va (CrossEntropyLoss T))
          (m, o, 0)
          {| w_config := w_config w; w_generator := g1;
             w_wandb := w_wandb w ++ [Init "dlai_intro" cfg] |}
      with
      | (Return _, w2) => wandb_finish w2
      | (Raise e, w2) => (Raise e, w2)
      end.
Proof.
  intros Hdl Hsteps Hok. apply andb_true_iff in Hok as [Hd Hlr].
  rewrite train_model_unfold. cbv zeta. rewrite Hdl, Hsteps.
  match goal with
  | |- context [get_model ?d ?w1] =>
      destruct (get_model_run d w1) as (m & g' & ->)
  end.
  cbn [w_config w_generator w_wandb]. rewrite Hd.
  unfold Adam. rewrite Hlr. by eexists _, _, _.
Qed.

(** The run follows [run_shape]. *)
Lemma train_model_run :
  ∃ g' calls,
    train_model T DATA_DIR w =
      ((run_shape T DATA_DIR cfg).1,
       {| w_config := w_config w; w_generator := g';
          w_wandb := w_wandb w ++ calls |})
    ∧ call_kind <$> calls = (run_shape T DATA_DIR cfg).2.
Proof.
  unfold run_shape.
  destruct loaders as [[tr va]|e] eqn:Hdl.
  2:{ eexists _, _. by rewrite (train_model_no_loaders e Hdl). }
  destruct (n_steps_per_epoch tr (batch_size cfg)) as [steps|e] eqn:Hsteps.
  2:{ eexists _, _. by rewrite (train_model_no_steps tr va e Hdl Hsteps). }
  destruct (dropout_ok (dropout cfg) && lr_ok (lr cfg)) eqn:Hvalid; cbn [negb].
  2:{ destruct (train_model_refused tr va steps Hdl Hsteps Hvalid) as (g' & ->).
      by eexists _, _. }
  destruct (train_model_enter tr va steps Hdl Hsteps Hvalid) as (m & o & g1 & ->).
  case_bool_decide as Hpos; cbn [negb].
  2:{ unfold run_kinds, range.
      replace (Z.to_nat (epochs cfg)) with 0%nat by lia.
      exists g1, [Init "dlai_intro" cfg; Finish]. split; [| done].
      simpl. unfold wandb_finish, wandb_call. simpl. by rewrite <- app_assoc. }
  destruct (trainable (batches tr)) eqn:Htr; cbn [negb].
  - destruct (dataset va) as [|x xs] eqn:Hva.
    + unfold range. destruct (Z.to_nat (epochs cfg)) as [|n] eqn:En; [lia |].
      cbn [seq fmap list_fmap for_each]. unmonad. rewrite run_bind.
      match goal with
      | |- context [train_epoch tr va ?lf (?m, ?o, ?ct) ?e ?w1] =>
          destruct (train_epoch_run tr va lf m o ct e w1)
            as (r & g' & calls & -> & _ & Hnil & _)
      end.
      destruct (Hnil Htr Hva) as [-> Hk].
      exists g', (Init "dlai_intro" cfg :: calls). split.
      * simpl. by rewrite <- app_assoc.
      * by rewrite fmap_cons, Hk.
    + assert (Hne : dataset va ≠ []) by (by rewrite Hva).
      match goal with
      | |- context [for_each ?es ?body (?m, ?o, ?ct) ?w1] =>
          destruct (epochs_loop_run tr va (CrossEntropyLoss T) es Htr Hne m o ct w1)
            as (vars' & g' & calls & -> & Hk)
      end.
      exists g', (Init "dlai_intro" cfg :: calls ++ [Finish]). split.
      * unfold wandb_finish, wandb_call. simpl. by rewrite <- !app_assoc.
      * unfold run_kinds. by rewrite fmap_cons, fmap_app, Hk.
  - unfold range. destruct (Z.to_nat (epochs cfg)) as [|n] eqn:En; [lia |].
    cbn [seq fmap list_fmap for_each]. unmonad. rewrite run_bind.
    match goal with
    | |- context [train_epoch tr va ?lf (?m, ?o, ?ct) ?e ?w1] =>
        destruct (train_epoch_run tr va lf m o ct e w1)
          as (r & g' & calls & -> & Hbad & _ & _)
    end.
    destruct (Hbad Htr) as [-> Hk].
    exists g', (Init "dlai_intro" cfg :: calls). split.
    + simpl. by rewrite <- app_assoc.
    + by rewrite fmap_cons, Hk.
Qed.
End Run.
End RunFacts.

(** ** The shape of a run *)

Section ShapeFacts.
Context {T : Torch}.
Implicit Types bs : list (Batch T).

Lemma total_size_cons (b : Batch T) bs :
  total_size (b :: bs) = len b.1 + total_size bs.
Proof. reflexivity. Qed.

Lemma total_size_nonneg bs : 0 ≤ total_size bs.
Proof.
  induction bs as [|b bs IH]; [done |].
  rewrite total_size_cons. unfold len. lia.
Qed.

Lemma total_size_app bs1 bs2 :
  total_size (bs1 ++ bs2) = total_size bs1 + total_size bs2.
Proof.
  induction bs1 as [|b bs1 IH]; [done |].
  rewrite <- app_comm_cons, !total_size_cons, IH. lia.
Qed.

Lemma total_size_take_le bs (i j : nat) :
  (i ≤ j)%nat → total_size (take i bs) ≤ total_size (take j bs).
Proof.
  revert i j. induction bs as [|b bs IH]; intros i j Hij.
  - by rewrite !take_nil.
  - destruct i as [|i], j as [|j]; try lia; cbn [firstn].
    + rewrite total_size_cons.
      pose proof (total_size_nonneg (take j bs)). unfold len.
      change (total_size []) with 0. lia.
    + rewrite !total_size_cons. specialize (IH i j ltac:(lia)). lia.
Qed.

Lemma example_cts_length ct bs : length (example_cts ct bs) = length bs.
Proof. revert ct. induction bs; intros; simpl; [done | by rewrite IHbs]. Qed.

Lemma example_cts_app ct bs1 bs2 :
  example_cts ct (bs1 ++ bs2) =
    example_cts ct bs1 ++ example_cts (ct + total_size bs1) bs2.
Proof.
  revert ct. induction bs1 as [|b bs1 IH]; intros ct.
  - simpl. by rewrite Z.add_0_r.
  - rewrite <- app_comm_cons. cbn [example_cts].
    by rewrite IH, total_size_cons, Z.add_assoc.
Qed.

Lemma example_cts_lookup ct bs (k : nat) x :
  example_cts ct bs !! k = Some x → x = ct + total_size (take (S k) bs).
Proof.
  revert ct k. induction bs as [|b bs IH]; intros ct k; [done |].
  destruct k as [|k]; cbn [example_cts lookup list_lookup firstn].
  - intros [= <-]. rewrite total_size_cons, take_0.
    change (total_size []) with 0. lia.
  - intros Hk. apply IH in Hk. rewrite Hk, total_size_cons. lia.
Qed.

Lemma example_cts_mono ct bs (i j : nat) a b :
  (i ≤ j)%nat →
  example_cts ct bs !! i = Some a → example_cts ct bs !! j = Some b → a ≤ b.
Proof.
  intros Hij Ha Hb.
  apply example_cts_lookup in Ha, Hb. subst a b.
  pose proof (total_size_take_le bs (S i) (S j) ltac:(lia)). lia.
Qed.

Lemma logged_cts_train e (cts : list Z) :
  logged_example_cts (KTrain e <$> cts) = cts.
Proof.
  unfold logged_example_cts.
  induction cts as [|c cts IH]; csimpl; [done | by rewrite IH].
Qed.

Lemma logged_cts_epochs ct bs es :
  logged_example_cts (epochs_kinds ct bs es) =
    example_cts ct (concat (replicate (length es) bs)).
Proof.
  revert ct. induction es as [|e es IH]; intros ct; [done |].
  cbn [epochs_kinds length replicate concat].
  rewrite example_cts_app, <- IH. unfold epoch_kinds, logged_example_cts.
  rewrite !omap_app.
  fold (logged_example_cts (KTrain (e + 1) <$> example_cts ct bs)).
  rewrite logged_cts_train, <- app_assoc. done.
Qed.

(** Counting the calls of a kind. *)
Lemma count_epochs_kinds (P : kind → Prop) `{!∀ k, Decision (P k)}
    (a b : nat) ct bs es :
  (∀ e c, length (filter P [KTrain e c]) = a) →
  length (filter P [KVal]) = b →
  length (filter P (epochs_kinds ct bs es)) =
    (length es * (a * length bs + b))%nat.
Proof.
  intros Ha Hb.
  assert (Htrain : ∀ e cts,
    length (filter P (KTrain e <$> cts)) = (a * length cts)%nat).
  { intros e cts. induction cts as [|c cts IH]; [simpl; lia |].
    rewrite fmap_cons.
    change (KTrain e c :: (KTrain e <$> cts))
      with ([KTrain e c] ++ (KTrain e <$> cts)).
    rewrite filter_app, length_app, Ha, IH. simpl. lia. }
  revert ct. induction es as [|e es IH]; intros ct; [done |].
  cbn [epochs_kinds]. unfold epoch_kinds.
  rewrite !filter_app, !length_app, Htrain, Hb, IH, example_cts_length.
  simpl. lia.
Qed.

Lemma is_log_record (c : Call) : is_log c = is_record (call_kind c).
Proof.
  destruct c as [| m |]; try done.
  unfold call_kind. by repeat case_match.
Qed.

Lemma filter_is_log_length (calls : list Call) :
  length (filter is_log calls) =
    length (filter is_record (call_kind <$> calls)).
Proof.
  induction calls as [|c calls IH]; [done |].
  rewrite fmap_cons, !filter_cons, <- is_log_record.
  destruct (is_log c); simpl; by rewrite IH.
Qed.
End ShapeFacts.

(** ** The evaluator's result *)

Section EvaluatorFacts.
Context {T : Torch}.

Lemma weighted_loss_sum_nonneg (m : Model T) lf bs :
  (∀ o l, 0 <= item T (lf o l))%Q → (0 <= weighted_loss_sum m lf bs)%Q.
Proof.
  intros Hlf. unfold weighted_loss_sum.
  induction bs as [|b bs IH]; [done |].
  rewrite fmap_cons. cbn [foldr].
  apply Qle_trans with (0 + 0)%Q; [done |].
  apply Qplus_le_compat; [| exact IH].
  apply Qmult_le_0_compat; [apply Hlf |].
  change 0%Q with (inject_Z 0). rewrite <- Zle_Qle. unfold len. lia.
Qed.

Lemma chunks_upto_total {A} k n (l : list A) :
  (sum_list_with length (chunks_upto k n l) ≤ length l)%nat.
Proof.
  revert l. induction k as [|k IH]; intros l; [simpl; lia |].
  destruct l as [|a l]; [simpl; lia |].
  cbn [chunks_upto sum_list_with].
  specialize (IH (drop n (a :: l))).
  rewrite length_drop in IH. rewrite length_take. lia.
Qed.

Lemma scored_examples_length (m : Model T) bs :
  (length (scored_examples m bs) ≤ sum_list_with (λ b, length b.2) bs)%nat.
Proof.
  unfold scored_examples.
  induction bs as [|b bs IH]; [done |].
  rewrite bind_cons, length_app. cbn [sum_list_with].
  rewrite length_zip.
  apply Nat.add_le_mono; [apply Nat.le_min_r | exact IH].
Qed.

Lemma batches_labels_total (dl : DataLoader T) :
  (sum_list_with (λ b, length b.2) (batches dl) ≤ length (dataset dl))%nat.
Proof.
  unfold batches, chunks.
  etrans; [| apply (chunks_upto_total (length (dataset dl)) (dl_batch_size dl))].
  generalize (chunks_upto (length (dataset dl)) (dl_batch_size dl) (dataset dl)).
  intros cs. induction cs as [|c cs IH]; [done |].
  rewrite fmap_cons. cbn [sum_list_with]. unfold collate at 1; cbn [snd].
  rewrite length_fmap. apply Nat.add_le_mono; [done | exact IH].
Qed.

Lemma correct_examples_bounds (m : Model T) (dl : DataLoader T) :
  0 ≤ correct_examples m (batches dl) ≤ len (dataset dl).
Proof.
  unfold correct_examples, len.
  pose proof (length_filter (λ ex : list Q * Z, argmax ex.1 = ex.2)
                (scored_examples m (batches dl))).
  pose proof (scored_examples_length m (batches dl)).
  pose proof (batches_labels_total dl). lia.
Qed.
End EvaluatorFacts.

(** * Properties of the notebook *)

(** C8. The hyperparameter object is the same after [train_model] as
    before it, whatever the outcome of the run: training reads [epochs],
    [batch_size], [lr], [dropout], [slice_size] and [valid_pct] and writes
    none of them. *)
Theorem train_model_keeps_config (T : Torch) (DATA_DIR : list (Example T))
    (w : World T) :
  w_config (train_model T DATA_DIR w).2 = w_config w.
Proof. apply train_model_config. Qed.

(** C10. [validate_model] divides by the size of the validation dataset
    without a guard: on an empty dataset the run ends in
    [ZeroDivisionError]; on any other it returns the accumulated loss and
    the number of correct predictions, each divided by that non-zero
    size.  Either way the only trace it leaves is the seed its loader's
    iterator drew from the global generator. *)
Theorem validate_model_division (T : Torch) (model : Model T)
    (valid_dl : DataLoader T) (loss_func : Outputs T → list Z → Loss T)
    (w : World T) :
  match dataset valid_dl with
  | [] =>
      validate_model model valid_dl loss_func w = (Raise ZeroDivisionError, seeded w)
  | _ :: _ =>
      let n := inject_Z (len (dataset valid_dl)) in
      ¬ (n == 0)%Q ∧
      ∃ val_loss correct,
        validate_model model valid_dl loss_func w =
          (Return ((val_loss / n)%Q, (inject_Z correct / n)%Q), seeded w)
  end.
Proof.
  destruct (dataset valid_dl) as [|x xs] eqn:Hds.
  - by apply validate_model_empty.
  - assert (Hne : dataset valid_dl ≠ []) by (by rewrite Hds).
    rewrite <- Hds. split; [by apply inject_Z_len_nonzero |].
    destruct (validate_model_run T model valid_dl loss_func w) as (vl & _ & ->).
    rewrite !true_div_nonzero by by apply inject_Z_len_nonzero.
    by eexists _, _.
Qed.

(** C3. On a non-empty validation set [validate_model] returns the pair
    (mean loss, accuracy): the sum over the batches of per-batch loss times
    batch size, divided by the size of the validation dataset, and the
    number of examples whose argmax over the logits equals their label,
    divided by the same size. *)
Theorem validate_model_mean_loss_accuracy (T : Torch) (model : Model T)
    (loss_func : Outputs T → list Z → Loss T) (valid_dl : DataLoader T)
    (w : World T) :
  dataset valid_dl ≠ [] →
  ∃ mean_loss accuracy,
    validate_model model valid_dl loss_func w = (Return (mean_loss, accuracy), seeded w)
    ∧ (mean_loss ==
         weighted_loss_sum model loss_func (batches valid_dl)
         / inject_Z (len (dataset valid_dl)))%Q
    ∧ accuracy =
        (inject_Z (correct_examples model (batches valid_dl))
         / inject_Z (len (dataset valid_dl)))%Q.
Proof.
  intros Hne.
  destruct (validate_model_run T model valid_dl loss_func w) as (vl & Hvl & ->).
  rewrite !true_div_nonzero by by apply inject_Z_len_nonzero.
  eexists _, _. split; [done |]. split; [| done].
  by rewrite Hvl.
Qed.

Lemma validate_model_mean_loss_accuracy_witness :
  dataset toy_loader ≠ [] ∧
  ∃ mean_loss accuracy,
    validate_model toy_model toy_loader (CrossEntropyLoss toy)
      (toy_world (toy_config 1 (1 # 5)) [])
      = (Return (mean_loss, accuracy),
         seeded (toy_world (toy_config 1 (1 # 5)) []))
    ∧ (mean_loss ==
         weighted_loss_sum toy_model (CrossEntropyLoss toy) (batches toy_loader)
         / inject_Z (len (dataset toy_loader)))%Q
    ∧ accuracy =
        (inject_Z (correct_examples toy_model (batches toy_loader))
         / inject_Z (len (dataset toy_loader)))%Q.
Proof.
  assert (H : dataset toy_loader ≠ []) by (vm_compute; discriminate).
  split; [exact H |].
  exact (validate_model_mean_loss_accuracy toy toy_model (CrossEntropyLoss toy)
           toy_loader (toy_world (toy_config 1 (1 # 5)) []) H).
Defined.

(** C6. With a loss function that is never negative, as cross-entropy is,
    and a non-empty validation set, the accuracy returned by
    [validate_model] lies in [0, 1] and the validation loss is not
    negative. *)
Theorem validate_model_bounds (T : Torch) (model : Model T)
    (loss_func : Outputs T → list Z → Loss T) (valid_dl : DataLoader T)
    (w : World T) :
  (∀ outputs labels, 0 <= item T (loss_func outputs labels))%Q →
  dataset valid_dl ≠ [] →
  ∃ val_loss accuracy,
    validate_model model valid_dl loss_func w = (Return (val_loss, accuracy), seeded w)
    ∧ (0 <= accuracy)%Q ∧ (accuracy <= 1)%Q ∧ (0 <= val_loss)%Q.
Proof.
  intros Hlf Hne.
  destruct (validate_model_run T model valid_dl loss_func w) as (vl & Hvl & ->).
  rewrite !true_div_nonzero by by apply inject_Z_len_nonzero.
  eexists _, _. split; [done |].
  pose proof (correct_examples_bounds model valid_dl) as [Hc0 Hc1].
  assert (Hn : (0 < inject_Z (len (dataset valid_dl)))%Q).
  { change 0%Q with (inject_Z 0). rewrite <- Zlt_Qlt.
    destruct (dataset valid_dl); [done | unfold len; simpl; lia]. }
  repeat split.
  - apply Qle_shift_div_l; [done |]. rewrite Qmult_0_l.
    change 0%Q with (inject_Z 0). by rewrite <- Zle_Qle.
  - apply Qle_shift_div_r; [done |]. rewrite Qmult_1_l. by rewrite <- Zle_Qle.
  - apply Qle_shift_div_l; [done |]. rewrite Qmult_0_l, Hvl.
    by apply weighted_loss_sum_nonneg.
Qed.

Lemma validate_model_bounds_witness :
  ∃ val_loss accuracy,
    validate_model toy_model toy_loader (CrossEntropyLoss toy)
      (toy_world (toy_config 1 (1 # 5)) [])
      = (Return (val_loss, accuracy),
         seeded (toy_world (toy_config 1 (1 # 5)) []))
    ∧ (0 <= accuracy)%Q ∧ (accuracy <= 1)%Q ∧ (0 <= val_loss)%Q.
Proof.
  apply (validate_model_bounds toy toy_model (CrossEntropyLoss toy) toy_loader).
  - intros outputs labels. simpl.
    apply Qle_trans with (inject_Z (len outputs) + 0)%Q.
    + rewrite Qplus_0_r. change 0%Q with (inject_Z 0).
      rewrite <- Zle_Qle. unfold len. lia.
    + apply Qplus_le_compat; [apply Qle_refl | done].
  - vm_compute. discriminate.
Defined.

(** C7. The record logged by a training step holds exactly three entries:
    the loss computed at that step from the model's outputs on the batch,
    the loop's 0-based epoch index plus one, and the running example count
    after adding the size of the batch.  The step logs that record whenever
    the forward pass returns; the forward pass raises only for a model in
    training mode on a batch of one image, and then the step raises the
    same exception and logs nothing. *)
Theorem train_step_metric_record (T : Torch)
    (loss_func : Outputs T → list Z → Loss T) (epoch : Z)
    (model : Model T) (optimizer : Optimizer T) (example_ct step : Z)
    (images : list (Image T)) (labels : list Z) (w : World T) :
  match call model images w with
  | (Raise e, w1) =>
      training model = true ∧ len images = 1
      ∧ train_step loss_func epoch (model, optimizer, example_ct)
          (step, (images, labels)) w
        = (Raise e, w1)
  | (Return (outputs, model1), w1) =>
      ∃ model' optimizer' metrics,
        train_step loss_func epoch (model, optimizer, example_ct)
          (step, (images, labels)) w
        = (Return (model', optimizer', example_ct + len images),
           {| w_config := w_config w1; w_generator := w_generator w1;
              w_wandb := w_wandb w ++ [Log metrics] |})
        ∧ metrics !! "train/train_loss"
          = Some (SFloat (item T (loss_func outputs labels)))
        ∧ metrics !! "train/epoch" = Some (SInt (epoch + 1))
        ∧ metrics !! "train/example_ct" = Some (SInt (example_ct + len images))
        ∧ dom metrics
          = ({["train/train_loss"; "train/epoch"; "train/example_ct"]}
             : gset string)
  end.
Proof.
  destruct (call model images w) as [[[outputs model1]|e] w1] eqn:Hcall.
  - destruct (call_frame T _ _ _ _ _ Hcall) as [_ Hw].
    destruct (backward_step optimizer model1 (loss_func outputs labels))
      as [optimizer' model'] eqn:Hstep.
    exists model', optimizer',
      (train_metrics (item T (loss_func outputs labels)) epoch
         (example_ct + len images)).
    split.
    + unfold train_step, mbind, M_bind. rewrite run_bind, Hcall, Hstep.
      cbn. by rewrite Hw.
    + repeat split; reflexivity.
  - split; [| split].
    + unfold call in Hcall. destruct (training model); [done |].
      by inversion Hcall.
    + unfold call in Hcall. destruct (training model); [| by inversion Hcall].
      destruct (len images =? 1) eqn:Hone; [lia |].
      unfold with_generator in Hcall.
      destruct (forward_train T _ _ _) as [[o p] g']. by inversion Hcall.
    + unfold train_step, mbind, M_bind. by rewrite run_bind, Hcall.
Qed.

(** ** Every run that gets its data loaders *)

Section WholeRun.
Variable T : Torch.
Variable DATA_DIR : list (Example T).
Variable w : World T.
Local Abbreviation cfg := (w_config w).
Variables tr va : DataLoader T.
Hypothesis loaders :
  get_dataloaders T DATA_DIR (batch_size cfg) (slice_size cfg) (valid_pct cfg)
    = Return (tr, va).

Lemma until_single_prefix (bs : list (Batch T)) :
  ∃ k : nat, (k ≤ length bs)%nat ∧ until_single bs = take k bs.
Proof.
  induction bs as [|b bs (k & Hk & IH)]; [by exists 0%nat |].
  cbn [until_single]. destruct (len b.1 =? 1).
  - exists 0%nat. split; [lia | done].
  - exists (S k). split; [cbn [length]; lia |]. cbn [take]. by rewrite IH.
Qed.

Lemma until_single_trainable (bs : list (Batch T)) :
  trainable bs = true → until_single bs = bs.
Proof.
  induction bs as [|b bs IH]; [done |].
  unfold trainable. cbn [forallb until_single].
  intros [Hb Hbs]%andb_true_iff. apply negb_true_iff in Hb.
  rewrite Hb. by rewrite IH.
Qed.

Lemma logged_cts_init (ks : list kind) :
  logged_example_cts (KInit :: ks) = logged_example_cts ks.
Proof. reflexivity. Qed.

Lemma run_kinds_logged_cts (bs : list (Batch T)) n :
  logged_example_cts (run_kinds bs n) =
    example_cts 0 (concat (replicate (Z.to_nat n) bs)).
Proof.
  unfold run_kinds, logged_example_cts. cbn [omap list_omap].
  rewrite omap_app. cbn [omap list_omap]. rewrite app_nil_r.
  fold (logged_example_cts (epochs_kinds 0 bs (range n))).
  by rewrite logged_cts_epochs, range_length.
Qed.

Lemma processed_first_pass (k : nat) :
  0 < epochs cfg → (k ≤ length (batches tr))%nat →
  take k (processed tr (epochs cfg)) = take k (batches tr).
Proof.
  intros Hpos Hk. unfold processed.
  destruct (Z.to_nat (epochs cfg)) as [|n] eqn:En; [lia |].
  cbn [replicate concat]. by rewrite take_app_le.
Qed.

(** The example counts a run logs are those of a prefix of the batches
    that [epochs] passes over the training loader go through. *)
Lemma run_shape_logged_cts :
  ∃ k : nat,
    logged_example_cts (run_shape T DATA_DIR cfg).2
    = example_cts 0 (take k (processed tr (epochs cfg))).
Proof.
  assert (Hfull :
    logged_example_cts (run_kinds (batches tr) (epochs cfg))
    = example_cts 0
        (take (length (processed tr (epochs cfg))) (processed tr (epochs cfg)))).
  { by rewrite firstn_all, run_kinds_logged_cts. }
  unfold run_shape. rewrite loaders.
  destruct (n_steps_per_epoch tr (batch_size cfg)); [| by exists 0%nat].
  destruct (dropout_ok (dropout cfg) && lr_ok (lr cfg)); cbn [negb];
    [| by exists 0%nat].
  case_bool_decide as Hpos; cbn [negb]; [| by eexists].
  destruct (trainable (batches tr)); cbn [negb].
  - destruct (dataset va); cbn [snd]; [| by eexists].
    exists (length (batches tr)).
    rewrite logged_cts_init, logged_cts_train, processed_first_pass by done.
    by rewrite firstn_all.
  - cbn [snd]. destruct (until_single_prefix (batches tr)) as (k & Hk & ->).
    exists k. by rewrite logged_cts_init, logged_cts_train, processed_first_pass.
Qed.

Lemma train_model_logged_cts :
  ∃ k : nat,
    logged_example_cts
      (call_kind <$> emitted w (train_model T DATA_DIR w).2)
    = example_cts 0 (take k (processed tr (epochs cfg))).
Proof.
  destruct (train_model_run T DATA_DIR w) as (g' & calls & Hrun & Hk).
  rewrite Hrun. cbn [snd]. rewrite emitted_app, Hk.
  apply run_shape_logged_cts.
Qed.

(** A run whose constructors accept the hyperparameters and which meets
    neither a batch of one nor an empty validation set completes. *)
Lemma train_model_completes steps :
  n_steps_per_epoch tr (batch_size cfg) = Return steps →
  dropout_ok (dropout cfg) = true → lr_ok (lr cfg) = true →
  epochs cfg ≤ 0 ∨ (trainable (batches tr) = true ∧ dataset va ≠ []) →
  ∃ g' calls,
    train_model T DATA_DIR w =
      (Return (),
       {| w_config := w_config w; w_generator := g';
          w_wandb := w_wandb w ++ calls |})
    ∧ call_kind <$> calls = run_kinds (batches tr) (epochs cfg).
Proof.
  intros Hsteps Hd Hlr Hrun.
  destruct (train_model_run T DATA_DIR w) as (g' & calls & Heq & Hk).
  exists g', calls. rewrite Heq, Hk. unfold run_shape.
  rewrite loaders, Hsteps, Hd, Hlr. cbn [andb negb].
  case_bool_decide as Hpos; cbn [negb]; [| done].
  destruct Hrun as [Hle|[-> Hne]]; [lia |]. cbn [negb].
  by destruct (dataset va).
Qed.

(** A run that returns has gone through every epoch. *)
Lemma run_shape_returns :
  (run_shape T DATA_DIR cfg).1 = Return () →
  (run_shape T DATA_DIR cfg).2 = run_kinds (batches tr) (epochs cfg).
Proof.
  unfold run_shape. rewrite loaders.
  destruct (n_steps_per_epoch tr (batch_size cfg)); [| done].
  destruct (dropout_ok (dropout cfg) && lr_ok (lr cfg)); cbn [negb]; [| done].
  case_bool_decide; cbn [negb]; [| done].
  destruct (trainable (batches tr)); cbn [negb]; [| done].
  by destruct (dataset va).
Qed.

Lemma train_model_returns_kinds w' :
  train_model T DATA_DIR w = (Return (), w') →
  call_kind <$> emitted w w' = run_kinds (batches tr) (epochs cfg).
Proof.
  destruct (train_model_run T DATA_DIR w) as (g' & calls & Heq & Hk).
  rewrite Heq. intros [= Hret <-]. rewrite emitted_app, Hk.
  by apply run_shape_returns.
Qed.
End WholeRun.

(** C5. In every run, the example counts logged at the successive training
    steps never decrease, and the count logged at the k-th step of the run
    is the total size of the first k batches the run has processed. *)
Theorem example_ct_running_sum (T : Torch) (DATA_DIR : list (Example T))
    (w : World T) (tr va : DataLoader T) :
  get_dataloaders T DATA_DIR (batch_size (w_config w))
    (slice_size (w_config w)) (valid_pct (w_config w)) = Return (tr, va) →
  let cts :=
    logged_example_cts (call_kind <$> emitted w (train_model T DATA_DIR w).2) in
  (∀ (i j : nat) a b,
     (i ≤ j)%nat → cts !! i = Some a → cts !! j = Some b → a ≤ b)
  ∧ (∀ (k : nat) ct,
       cts !! k = Some ct →
       ct = total_size (take (S k) (processed tr (epochs (w_config w))))).
Proof.
  intros Hdl cts.
  destruct (train_model_logged_cts T DATA_DIR w tr va Hdl) as (n & Hcts).
  subst cts. rewrite Hcts. split.
  - intros i j a b. apply example_cts_mono.
  - intros k ct Hk.
    pose proof (lookup_lt_Some _ _ _ Hk) as Hlen.
    rewrite example_cts_length, length_take in Hlen.
    apply example_cts_lookup in Hk. rewrite Hk, Z.add_0_l.
    rewrite take_take. by replace (S k `min` n)%nat with (S k) by lia.
Qed.

Lemma example_ct_running_sum_witness :
  let w := toy_world (toy_config 2 (1 # 5)) [] in
  let tr := {| dataset := toy_data 6; dl_batch_size := 2 |} in
  let va := {| dataset := drop 6 (toy_data 7); dl_batch_size := 2 |} in
  let cts :=
    logged_example_cts
      (call_kind <$> emitted w (train_model toy (toy_data 9) w).2) in
  get_dataloaders toy (toy_data 9) 2 7 (1 # 5) = Return (tr, va)
  ∧ cts = [2; 4; 6; 8; 10; 12]
  ∧ (∀ (i j : nat) a b,
       (i ≤ j)%nat → cts !! i = Some a → cts !! j = Some b → a ≤ b)
  ∧ (∀ (k : nat) ct,
       cts !! k = Some ct → ct = total_size (take (S k) (processed tr 2))).
Proof.
  intros w tr va cts.
  assert (Hdl : get_dataloaders toy (toy_data 9) 2 7 (1 # 5) = Return (tr, va))
    by reflexivity.
  split; [exact Hdl |]. split; [reflexivity |].
  exact (example_ct_running_sum toy (toy_data 9) w tr va Hdl).
Defined.

Lemma count_run_kinds {T : Torch} (P : kind → Prop) `{!∀ k, Decision (P k)}
    (a b i f : nat) (bs : list (Batch T)) (n : Z) :
  (∀ e c, length (filter P [KTrain e c]) = a) →
  length (filter P [KVal]) = b →
  length (filter P [KInit]) = i →
  length (filter P [KFinish]) = f →
  length (filter P (run_kinds bs n)) =
    (i + Z.to_nat n * (a * length bs + b) + f)%nat.
Proof.
  intros Ha Hb Hi Hf. unfold run_kinds.
  change (KInit :: epochs_kinds 0 bs (range n) ++ [KFinish])
    with ([KInit] ++ epochs_kinds 0 bs (range n) ++ [KFinish]).
  rewrite !filter_app, !length_app, Hi, Hf.
  rewrite (count_epochs_kinds P a b) by done.
  rewrite range_length. lia.
Qed.

(** C1, as amended.  When the epoch count is not negative, the data
    provider returns loaders whose validation set is not empty, no batch of
    the training loader holds a single example, the dropout probability is
    in [0, 1], the learning rate is not negative, and batch size and
    training set size are below 2^53, the run completes and logs
    [epochs * steps + epochs] records, [steps] being the value of line 120
    and the number of batches of the training loader: one record per
    training step and one validation record per epoch. *)
Theorem train_model_record_count (T : Torch) (DATA_DIR : list (Example T))
    (w : World T) (tr va : DataLoader T) :
  0 ≤ epochs (w_config w) →
  get_dataloaders T DATA_DIR (batch_size (w_config w))
    (slice_size (w_config w)) (valid_pct (w_config w)) = Return (tr, va) →
  dataset va ≠ [] →
  trainable (batches tr) = true →
  dropout_ok (dropout (w_config w)) = true →
  lr_ok (lr (w_config w)) = true →
  batch_size (w_config w) < 2 ^ 53 →
  len (dataset tr) < 2 ^ 53 →
  record_count_claim T DATA_DIR w
  ∧ ∃ steps w',
      n_steps_per_epoch tr (batch_size (w_config w)) = Return steps
      ∧ steps = len (batches tr)
      ∧ train_model T DATA_DIR w = (Return (), w')
      ∧ len (filter is_train (call_kind <$> emitted w w'))
        = epochs (w_config w) * steps
      ∧ len (filter is_val (call_kind <$> emitted w w'))
        = epochs (w_config w).
Proof.
  intros Hn Hdl Hne Htrain Hd Hlr Hbig Hlen.
  destruct (get_dataloaders_inv T _ _ _ _ _ _ Hdl) as (Hbs & Htr & _).
  pose proof (n_steps_per_epoch_run T tr _ (conj Hbs Hbig) Htr Hlen) as Hsteps.
  destruct (train_model_completes T DATA_DIR w tr va Hdl _ Hsteps Hd Hlr
              (or_intror (conj Htrain Hne)))
    as (g' & calls & Hrun & Hk).
  split.
  - unfold record_count_claim. cbv zeta. intros tr' va' steps Hdl' Hsteps'.
    rewrite Hdl in Hdl'. injection Hdl' as <- <-.
    rewrite Hsteps in Hsteps'. injection Hsteps' as <-.
    rewrite Hrun. cbn [snd]. rewrite emitted_app.
    unfold len at 1. rewrite filter_is_log_length, Hk.
    rewrite (count_run_kinds is_record 1 1 0 0) by done.
    unfold len. nia.
  - eexists _, _. split; [exact Hsteps |]. split; [done |].
    split; [exact Hrun |].
    rewrite emitted_app, Hk. unfold len at 1 3.
    rewrite (count_run_kinds is_train 1 0 0 0) by done.
    rewrite (count_run_kinds is_val 0 1 0 0) by done.
    unfold len. split; nia.
Qed.

Lemma train_model_record_count_witness :
  let w := toy_world (toy_config 2 (1 # 5)) [] in
  let tr := {| dataset := toy_data 6; dl_batch_size := 2 |} in
  let va := {| dataset := drop 6 (toy_data 7); dl_batch_size := 2 |} in
  record_count_claim toy (toy_data 9) w
  ∧ ∃ steps w',
      n_steps_per_epoch tr 2 = Return steps
      ∧ steps = len (batches tr)
      ∧ train_model toy (toy_data 9) w = (Return (), w')
      ∧ len (filter is_train (call_kind <$> emitted w w')) = 2 * steps
      ∧ len (filter is_val (call_kind <$> emitted w w')) = 2.
Proof.
  intros w tr va.
  apply (train_model_record_count toy (toy_data 9) w tr va).
  - simpl. lia.
  - reflexivity.
  - vm_compute. discriminate.
  - vm_compute. reflexivity.
  - vm_compute. reflexivity.
  - vm_compute. reflexivity.
  - vm_compute. reflexivity.
  - vm_compute. reflexivity.
Defined.

(** C1, as stated, fails: with a validation fraction of 0 the validation
    set is empty, the first validation pass raises [ZeroDivisionError], and
    the run of one epoch has logged its 3 training records and no
    validation record. *)
Lemma record_count_fails_on_empty_validation_set :
  ¬ record_count_claim toy (toy_data 9) (toy_world (toy_config_even 1 0) []).
Proof.
  intros Hclaim.
  specialize (Hclaim {| dataset := toy_data 6; dl_batch_size := 2 |}
                {| dataset := []; dl_batch_size := 2 |} 3 eq_refl ltac:(vm_compute; reflexivity)).
  vm_compute in Hclaim. discriminate.
Qed.

(** The run behind the failure, spelled out: one epoch over 6 training
    examples in batches of 2, an empty validation set. *)
Lemma empty_validation_set_run :
  let w := toy_world (toy_config_even 1 0) [] in
  get_dataloaders toy (toy_data 9) 2 6 0
    = Return ({| dataset := toy_data 6; dl_batch_size := 2 |},
              {| dataset := []; dl_batch_size := 2 |})
  ∧ (train_model toy (toy_data 9) w).1 = Raise ZeroDivisionError
  ∧ call_kind <$> emitted w (train_model toy (toy_data 9) w).2
    = [KInit; KTrain 1 2; KTrain 1 4; KTrain 1 6].
Proof. by vm_compute. Qed.

(** It fails on a batch of one as well: 7 training examples in batches of
    2 leave a last batch of one, on which batch normalisation in training
    mode raises [ValueError]; the run has logged 3 records, not the
    [1 * 4 + 1] of the formula, although its validation set is not empty. *)
Lemma single_example_batch_run :
  let cfg := {| epochs := 1; batch_size := 2; lr := 1 # 10; dropout := 1 # 2;
                slice_size := 8; valid_pct := 1 # 8 |} in
  let w := toy_world cfg [] in
  get_dataloaders toy (toy_data 9) 2 8 (1 # 8)
    = Return ({| dataset := toy_data 7; dl_batch_size := 2 |},
              {| dataset := drop 7 (toy_data 8); dl_batch_size := 2 |})
  ∧ n_steps_per_epoch {| dataset := toy_data 7; dl_batch_size := 2 |} 2
    = Return 4
  ∧ (train_model toy (toy_data 9) w).1 = Raise ValueError
  ∧ call_kind <$> emitted w (train_model toy (toy_data 9) w).2
    = [KInit; KTrain 1 2; KTrain 1 4; KTrain 1 6]
  ∧ ¬ record_count_claim toy (toy_data 9) w.
Proof.
  split; [by vm_compute |]. split; [by vm_compute |].
  split; [by vm_compute |]. split; [by vm_compute |].
  intros Hclaim.
  specialize (Hclaim {| dataset := toy_data 7; dl_batch_size := 2 |}
                {| dataset := drop 7 (toy_data 8); dl_batch_size := 2 |}
                4 eq_refl ltac:(vm_compute; reflexivity)).
  vm_compute in Hclaim. discriminate.
Qed.

(** A negative epoch count runs no epoch at all, so the count is 0 and not
    the negative number the formula gives. *)
Lemma record_count_needs_nonnegative_epochs :
  ¬ record_count_claim toy (toy_data 9) (toy_world (toy_config (-1) (1 # 5)) []).
Proof.
  intros Hclaim.
  specialize (Hclaim {| dataset := toy_data 6; dl_batch_size := 2 |}
                {| dataset := drop 6 (toy_data 7); dl_batch_size := 2 |}
                3 eq_refl
                ltac:(vm_compute; reflexivity)).
  vm_compute in Hclaim. discriminate.
Qed.

(** C9, as amended.  In every run of [train_model] that returns normally,
    the calls are [init], then for each epoch in turn that epoch's training
    records in step order followed by its validation record, then
    [finish]: [finish] is called exactly once and after every [log]. *)
Theorem train_model_call_order (T : Torch) (DATA_DIR : list (Example T))
    (w w' : World T) :
  train_model T DATA_DIR w = (Return (), w') →
  call_order_claim T DATA_DIR w.
Proof.
  intros Hrun tr va Hdl ks.
  assert (Hks : ks = run_kinds (batches tr) (epochs (w_config w))).
  { subst ks. rewrite Hrun. cbn [snd].
    by apply (train_model_returns_kinds T DATA_DIR w tr va Hdl). }
  rewrite Hks. split; [done |]. split.
  - rewrite (count_run_kinds (λ k, k = KFinish) 0 0 0 1) by done. lia.
  - unfold run_kinds. by rewrite app_comm_cons, last_snoc.
Qed.

Lemma train_model_call_order_witness :
  let w := toy_world (toy_config 2 (1 # 5)) [] in
  (train_model toy (toy_data 9) w).1 = Return ()
  ∧ call_order_claim toy (toy_data 9) w.
Proof.
  intros w. split; [by vm_compute |].
  apply (train_model_call_order toy (toy_data 9) w
           (train_model toy (toy_data 9) w).2).
  by vm_compute.
Defined.

(** C9, as stated, fails: the run aborted by the empty validation set has
    logged its training records and never calls [finish]. *)
Lemma call_order_fails_on_empty_validation_set :
  ¬ call_order_claim toy (toy_data 9) (toy_world (toy_config_even 1 0) []).
Proof.
  intros Hclaim.
  destruct (Hclaim {| dataset := toy_data 6; dl_batch_size := 2 |}
              {| dataset := []; dl_batch_size := 2 |} eq_refl)
    as (_ & Hfinish & _).
  vm_compute in Hfinish. discriminate.
Qed.

(** ** The example scenario *)

Lemma example_scenario_loaders (T : Torch) (DATA_DIR : list (Example T)) :
  10000 ≤ len DATA_DIR →
  ∃ tr va,
    get_dataloaders T DATA_DIR 128 10000 (1 # 5) = Return (tr, va)
    ∧ len (dataset tr) = 8000
    ∧ len (dataset va) = 2000.
Proof.
  intros Hlen. unfold get_dataloaders.
  rewrite bool_decide_eq_false_2 by lia.
  rewrite bool_decide_eq_false_2 by lia.
  assert (Hfloor : Qfloor ((1 # 5) * inject_Z 10000) = 2000) by reflexivity.
  rewrite Hfloor.
  eexists _, _. split; [reflexivity |].
  unfold len in *. cbn [dataset].
  rewrite length_drop, !length_take. lia.
Qed.

Lemma chunks_upto_no_single {A} (k n : nat) (l : list A) :
  (2 ≤ n)%nat → (length l `mod` n ≠ 1)%nat → (length l ≤ k)%nat →
  Forall (λ c, length c ≠ 1%nat) (chunks_upto k n l).
Proof.
  intros Hn. revert l. induction k as [|k IH]; intros l Hmod Hk;
    [by constructor |].
  destruct l as [|a l]; [by constructor |].
  cbn [chunks_upto]. set (l' := a :: l) in *.
  assert (Hl' : (1 ≤ length l')%nat) by (subst l'; cbn [length]; lia).
  destruct (decide (n ≤ length l')%nat) as [Hge|Hlt].
  - constructor; [rewrite length_take; lia |].
    apply IH; rewrite length_drop; [| lia].
    intros Hone. apply Hmod.
    replace (length l') with (length l' - n + 1 * n)%nat by lia.
    by rewrite Nat.Div0.mod_add.
  - rewrite Nat.mod_small in Hmod by lia.
    constructor; [rewrite length_take; lia |].
    rewrite drop_ge by lia. destruct k; constructor.
Qed.

(** With a batch size of at least 2 and a training set whose size does not
    leave a remainder of 1, no batch holds a single example. *)
Lemma trainable_batches {T : Torch} (dl : DataLoader T) (bs : Z) :
  2 ≤ bs → dl_batch_size dl = Z.to_nat bs →
  len (dataset dl) `mod` bs ≠ 1 →
  trainable (batches dl) = true.
Proof.
  intros Hbs Hdl Hmod. unfold batches, chunks.
  assert (Hall : Forall (λ c : list (Example T), length c ≠ 1%nat)
                   (chunks_upto (length (dataset dl)) (dl_batch_size dl)
                      (dataset dl))).
  { apply chunks_upto_no_single; [lia | | done].
    intros Hone. apply Hmod. unfold len.
    replace bs with (Z.of_nat (dl_batch_size dl)) by lia.
    rewrite <- Nat2Z.inj_mod. unfold Example in *. lia. }
  induction Hall as [|c cs Hc _ IH]; [done |].
  unfold trainable in *. cbn [fmap list_fmap forallb]. rewrite IH.
  unfold collate, len. cbn [fst]. rewrite length_fmap.
  unfold Example in *.
  destruct (Z.eqb_spec (Z.of_nat (length c)) 1) as [Heq|Hneq]; [lia | done].
Qed.

(** C2. With [epochs=1], [batch_size=128], [slice_size=10000] and
    [valid_pct=0.2], a learning rate that is not negative and a dropout
    probability in [0, 1], as all those of the notebook are, on a store of
    at least 10000 examples, the run completes and logs 63 training-step
    records and 1 validation record. *)
Theorem example_scenario_counts (T : Torch) (DATA_DIR : list (Example T))
    (lr0 dropout0 : Q) (g : Generator T) (h : list Call) :
  10000 ≤ len DATA_DIR →
  (0 <= lr0)%Q → (0 <= dropout0)%Q → (dropout0 <= 1)%Q →
  let w :=
    {| w_config := {| epochs := 1; batch_size := 128; lr := lr0;
                      dropout := dropout0; slice_size := 10000;
                      valid_pct := 1 # 5 |};
       w_generator := g; w_wandb := h |} in
  ∃ w',
    train_model T DATA_DIR w = (Return (), w')
    ∧ len (filter is_train (call_kind <$> emitted w w')) = 63
    ∧ len (filter is_val (call_kind <$> emitted w w')) = 1.
Proof.
  intros Hlen Hlr Hd0 Hd1 w.
  destruct (example_scenario_loaders T DATA_DIR Hlen)
    as (tr & va & Hdl & Htr & Hva).
  assert (Hne : dataset va ≠ []).
  { intros Hnil. rewrite Hnil in Hva. discriminate. }
  destruct (get_dataloaders_inv T _ _ _ _ _ _ Hdl) as (_ & Hbs & _).
  assert (Hsteps : n_steps_per_epoch tr 128 = Return (len (batches tr))).
  { apply n_steps_per_epoch_run; [lia | done | rewrite Htr; lia]. }
  assert (Htrain : trainable (batches tr) = true).
  { apply (trainable_batches tr 128); [lia | done | by rewrite Htr]. }
  assert (Hdrop : dropout_ok dropout0 = true).
  { unfold dropout_ok. apply andb_true_iff. by rewrite !Qle_bool_iff. }
  assert (Hlrok : lr_ok lr0 = true) by (by apply Qle_bool_iff).
  destruct (train_model_completes T DATA_DIR w tr va Hdl _ Hsteps Hdrop Hlrok
              (or_intror (conj Htrain Hne)))
    as (g' & calls & Hrun & Hk).
  assert (Hcount : len (batches tr) = 63).
  { rewrite batches_length, Hbs, Htr by (rewrite Hbs; lia). reflexivity. }
  eexists. split; [exact Hrun |].
  rewrite emitted_app, Hk. unfold len in *.
  rewrite (count_run_kinds is_train 1 0 0 0) by done.
  rewrite (count_run_kinds is_val 0 1 0 0) by done.
  cbn [epochs w_config w]. split; lia.
Qed.

Lemma example_scenario_counts_witness :
  let w :=
    {| w_config := {| epochs := 1; batch_size := 128; lr := 1 # 1000;
                      dropout := 1 # 10; slice_size := 10000;
                      valid_pct := 1 # 5 |};
       w_generator := (0 : Generator toy); w_wandb := [] |} in
  10000 ≤ len (toy_data (Z.to_nat 10000))
  ∧ ∃ w',
      train_model toy (toy_data (Z.to_nat 10000)) w = (Return (), w')
      ∧ len (filter is_train (call_kind <$> emitted w w')) = 63
      ∧ len (filter is_val (call_kind <$> emitted w w')) = 1.
Proof.
  assert (H : 10000 ≤ len (toy_data (Z.to_nat 10000))) by (by vm_compute).
  split; [exact H |].
  apply (example_scenario_counts toy (toy_data (Z.to_nat 10000))
           (1 # 1000) (1 # 10) (0 : Generator toy) [] H);
    by vm_compute.
Defined.

(** ** What the tracking client held before *)

Lemma world_prepend {T : Torch} (w : World T) :
  w = prepend (w_wandb w)
        {| w_config := w_config w; w_generator := w_generator w; w_wandb := [] |}.
Proof. destruct w. unfold prepend; simpl. by rewrite app_nil_r. Qed.

(** * Further properties of the training run *)

(** ** How a run ends and what it has logged by then *)

Lemma train_model_shape (T : Torch) (DATA_DIR : list (Example T)) (w : World T) :
  ((train_model T DATA_DIR w).1,
   call_kind <$> emitted w (train_model T DATA_DIR w).2)
  = run_shape T DATA_DIR (w_config w).
Proof.
  destruct (train_model_run T DATA_DIR w) as (g' & calls & Heq & Hk).
  rewrite Heq. cbn [fst snd]. rewrite emitted_app, Hk.
  by destruct (run_shape T DATA_DIR (w_config w)).
Qed.

Lemma oblivious_appends {T : Torch} {A} (c : M T A) (w : World T) :
  oblivious c → ∃ calls, w_wandb (c w).2 = w_wandb w ++ calls.
Proof.
  intros Hc.
  set (w0 := {| w_config := w_config w; w_generator := w_generator w;
                w_wandb := [] |}).
  pose proof (Hc (w_wandb w) w0) as Hrun.
  subst w0. rewrite <- world_prepend in Hrun. rewrite Hrun.
  match goal with
  | |- context [let '(_, _) := ?run in _] => destruct run as [r w']
  end.
  exists (w_wandb w'). reflexivity.
Qed.

Lemma train_model_first_call (T : Torch)
    (DATA_DIR : list (Example T)) (w : World T) :
  ∃ calls,
    w_wandb (train_model T DATA_DIR w).2
    = w_wandb w ++ Init "dlai_intro" (w_config w) :: calls.
Proof.
  rewrite train_model_unfold. cbv zeta.
  destruct (get_dataloaders T DATA_DIR _ _ _) as [[tr va]|e]; [| by exists []].
  destruct (n_steps_per_epoch tr _); [| by exists []].
  match goal with
  | |- context [get_model ?d ?w1] =>
      destruct (get_model_run T d w1) as (m & g' & ->)
  end.
  cbn [w_config w_generator w_wandb].
  destruct (dropout_ok _); [| by exists []].
  unfold Adam. destruct (lr_ok _); [| by exists []].
  match goal with
  | |- context [for_each ?es ?body ?s ?w1] =>
      destruct (oblivious_appends (for_each es body s) w1) as (calls & Hcalls);
      [ apply oblivious_for_each; intros; apply oblivious_train_epoch |];
      destruct (for_each es body s w1) as [[vars|e] w2]
  end; cbn [snd w_wandb] in Hcalls.
  - exists (calls ++ [Finish]). unfold wandb_finish, wandb_call.
    cbn [snd w_wandb]. rewrite Hcalls, <- !app_assoc. done.
  - exists calls. cbn [snd]. rewrite Hcalls, <- app_assoc. done.
Qed.

Lemma run_kinds_finish {T : Torch} (bs : list (Batch T)) n :
  KFinish ∈ run_kinds bs n.
Proof.
  unfold run_kinds. rewrite app_comm_cons.
  apply elem_of_app. right. by apply list_elem_of_singleton.
Qed.

Lemma train_records_no_finish e (cts : list Z) :
  KFinish ∉ KInit :: (KTrain e <$> cts).
Proof.
  intros Hin. apply elem_of_cons in Hin as [|Hin]; [done |].
  apply list_elem_of_fmap in Hin as (? & ? & _). done.
Qed.

Lemma run_shape_finish (T : Torch) (DATA_DIR : list (Example T))
    (cfg : Configuration) :
  KFinish ∈ (run_shape T DATA_DIR cfg).2
  ↔ (run_shape T DATA_DIR cfg).1 = Return ().
Proof.
  assert (Hinit : KFinish ∉ [KInit]).
  { intros Hin. apply list_elem_of_singleton in Hin. done. }
  unfold run_shape.
  destruct (get_dataloaders T DATA_DIR _ _ _) as [[tr va]|e]; [| done].
  destruct (n_steps_per_epoch tr _); [| done].
  destruct (dropout_ok _ && lr_ok _); cbn [negb]; [| done].
  case_bool_decide; cbn [negb]; [| by split; [| intros; apply run_kinds_finish]].
  destruct (trainable (batches tr)); cbn [negb].
  - destruct (dataset va); cbn [fst snd].
    + split; [| done]. intros Hin. by apply train_records_no_finish in Hin.
    + split; [done |]. intros _. apply run_kinds_finish.
  - cbn [fst snd]. split; [| done].
    intros Hin. by apply train_records_no_finish in Hin.
Qed.

(** X1. Whatever the hyperparameters and however the run ends,
    [train_model] keeps every call the tracking client had already
    received, and the first call it adds is [init] for project
    "dlai_intro" with the hyperparameters as they are at that moment. *)
Theorem train_model_appends_init_first (T : Torch)
    (DATA_DIR : list (Example T)) (w : World T) :
  ∃ calls,
    w_wandb (train_model T DATA_DIR w).2
    = w_wandb w ++ Init "dlai_intro" (w_config w) :: calls.
Proof. apply train_model_first_call. Qed.

(** X2. [finish] is reached exactly by the runs that return normally: a
    run that ends in an exception, from the data provider, from a
    constructor, from a training step or from the validation pass, leaves
    the tracking run open. *)
Theorem train_model_finish_iff_returns (T : Torch)
    (DATA_DIR : list (Example T)) (w : World T) :
  Finish ∈ emitted w (train_model T DATA_DIR w).2
  ↔ (train_model T DATA_DIR w).1 = Return ().
Proof.
  pose proof (train_model_shape T DATA_DIR w) as Hshape.
  assert (Hfin : ∀ calls : list Call,
            Finish ∈ calls ↔ KFinish ∈ call_kind <$> calls).
  { intros calls. rewrite list_elem_of_fmap. split.
    - intros Hin. by exists Finish.
    - intros (c & Hc & Hin). destruct c as [| m |]; try done.
      exfalso. revert Hc. unfold call_kind. by repeat case_match. }
  rewrite Hfin.
  pose proof (run_shape_finish T DATA_DIR (w_config w)) as Hrun.
  rewrite <- Hshape in Hrun. exact Hrun.
Qed.


(** X4. When there are epochs to run, the constructors accept the
    hyperparameters, no training batch holds a single example and the
    validation set is empty, the error only surfaces after the whole first
    epoch has been trained: the run has logged one training record per
    training batch, all for epoch 1, no validation record, and ends in
    [ZeroDivisionError]. *)
Theorem train_model_aborts_after_first_epoch (T : Torch)
    (DATA_DIR : list (Example T)) (w : World T) (tr va : DataLoader T)
    (steps : Z) :
  get_dataloaders T DATA_DIR (batch_size (w_config w))
    (slice_size (w_config w)) (valid_pct (w_config w)) = Return (tr, va) →
  n_steps_per_epoch tr (batch_size (w_config w)) = Return steps →
  dropout_ok (dropout (w_config w)) = true →
  lr_ok (lr (w_config w)) = true →
  trainable (batches tr) = true →
  dataset va = [] →
  0 < epochs (w_config w) →
  (train_model T DATA_DIR w).1 = Raise ZeroDivisionError
  ∧ call_kind <$> emitted w (train_model T DATA_DIR w).2
    = KInit :: (KTrain 1 <$> example_cts 0 (batches tr)).
Proof.
  intros Hdl Hsteps Hd Hl Htrain Hnil Hpos.
  pose proof (train_model_shape T DATA_DIR w) as Hshape.
  unfold run_shape in Hshape.
  rewrite Hdl, Hsteps, Hd, Hl, Htrain, Hnil in Hshape.
  rewrite bool_decide_eq_true_2 in Hshape by done.
  by injection Hshape as -> ->.
Qed.

Lemma train_model_aborts_after_first_epoch_witness :
  let w := toy_world (toy_config_even 3 0) [] in
  let tr := {| dataset := toy_data 6; dl_batch_size := 2 |} in
  (train_model toy (toy_data 9) w).1 = Raise ZeroDivisionError
  ∧ call_kind <$> emitted w (train_model toy (toy_data 9) w).2
    = KInit :: (KTrain 1 <$> example_cts 0 (batches tr)).
Proof.
  intros w tr.
  apply (train_model_aborts_after_first_epoch toy (toy_data 9) w tr
           {| dataset := []; dl_batch_size := 2 |} 3).
  - reflexivity.
  - by vm_compute.
  - by vm_compute.
  - by vm_compute.
  - by vm_compute.
  - reflexivity.
  - simpl. lia.
Defined.



(** X16. A batch of one aborts the run: when the loaders are there, line
    120 has returned, the constructors have accepted the hyperparameters
    and there is an epoch to run, a training loader that yields a batch of
    a single example makes [train_model] end in the [ValueError] of batch
    normalisation in training mode, in the first epoch, having logged the
    training records of the batches before that one and nothing else. *)
Theorem train_model_aborts_on_batch_of_one (T : Torch)
    (DATA_DIR : list (Example T)) (w : World T) (tr va : DataLoader T)
    (steps : Z) :
  get_dataloaders T DATA_DIR (batch_size (w_config w))
    (slice_size (w_config w)) (valid_pct (w_config w)) = Return (tr, va) →
  n_steps_per_epoch tr (batch_size (w_config w)) = Return steps →
  dropout_ok (dropout (w_config w)) = true →
  lr_ok (lr (w_config w)) = true →
  0 < epochs (w_config w) →
  trainable (batches tr) = false →
  (train_model T DATA_DIR w).1 = Raise ValueError
  ∧ call_kind <$> emitted w (train_model T DATA_DIR w).2
    = KInit :: (KTrain 1 <$> example_cts 0 (until_single (batches tr))).
Proof.
  intros Hdl Hsteps Hd Hl Hpos Htrain.
  pose proof (train_model_shape T DATA_DIR w) as Hshape.
  unfold run_shape in Hshape.
  rewrite Hdl, Hsteps, Hd, Hl, Htrain in Hshape.
  rewrite bool_decide_eq_true_2 in Hshape by done.
  by injection Hshape as -> ->.
Qed.

Lemma train_model_aborts_on_batch_of_one_witness :
  let cfg := {| epochs := 2; batch_size := 2; lr := 1 # 10; dropout := 1 # 2;
                slice_size := 8; valid_pct := 1 # 8 |} in
  let w := toy_world cfg [] in
  (train_model toy (toy_data 9) w).1 = Raise ValueError
  ∧ call_kind <$> emitted w (train_model toy (toy_data 9) w).2
    = [KInit; KTrain 1 2; KTrain 1 4; KTrain 1 6].
Proof.
  intros cfg w.
  apply (train_model_aborts_on_batch_of_one toy (toy_data 9) w
           {| dataset := toy_data 7; dl_batch_size := 2 |}
           {| dataset := drop 7 (toy_data 8); dl_batch_size := 2 |} 4).
  - reflexivity.
  - by vm_compute.
  - by vm_compute.
  - by vm_compute.
  - simpl. lia.
  - by vm_compute.
Defined.

(** X17. A dropout probability outside [0, 1] or a negative learning rate
    is refused by [nn.Dropout] or by [Adam] before any epoch: once the
    loaders are there and line 120 has returned, [train_model] ends in
    [ValueError] having called [init] and nothing else, whatever the epoch
    count. *)
Theorem train_model_refuses_hyperparameters (T : Torch)
    (DATA_DIR : list (Example T)) (w : World T) (tr va : DataLoader T)
    (steps : Z) :
  get_dataloaders T DATA_DIR (batch_size (w_config w))
    (slice_size (w_config w)) (valid_pct (w_config w)) = Return (tr, va) →
  n_steps_per_epoch tr (batch_size (w_config w)) = Return steps →
  dropout_ok (dropout (w_config w)) && lr_ok (lr (w_config w)) = false →
  (train_model T DATA_DIR w).1 = Raise ValueError
  ∧ emitted w (train_model T DATA_DIR w).2 = [Init "dlai_intro" (w_config w)].
Proof.
  intros Hdl Hsteps Hbad.
  destruct (train_model_refused T DATA_DIR w tr va steps Hdl Hsteps Hbad)
    as (g' & ->).
  cbn [fst snd]. by rewrite emitted_app.
Qed.

Lemma train_model_refuses_hyperparameters_witness :
  let w := toy_world (set_lr (-1 # 10) (toy_config 0 (1 # 5))) [] in
  (train_model toy (toy_data 9) w).1 = Raise ValueError
  ∧ emitted w (train_model toy (toy_data 9) w).2
    = [Init "dlai_intro" (w_config w)].
Proof.
  intros w.
  apply (train_model_refuses_hyperparameters toy (toy_data 9) w
           {| dataset := toy_data 6; dl_batch_size := 2 |}
           {| dataset := drop 6 (toy_data 7); dl_batch_size := 2 |} 3).
  - reflexivity.
  - by vm_compute.
  - by vm_compute.
Defined.

(** X6. [validate_model] makes no call to the tracking client and does not
    touch the hyperparameters, whether it returns or raises; of the random
    generator it takes the one seed its loader's iterator draws and
    nothing else, dropout being off in evaluation mode. *)
Theorem validate_model_leaves_world (T : Torch) (model : Model T)
    (valid_dl : DataLoader T) (loss_func : Outputs T → list Z → Loss T)
    (w : World T) :
  (validate_model model valid_dl loss_func w).2 = seeded w.
Proof.
  by destruct (validate_model_run T model valid_dl loss_func w) as (vl & _ & ->).
Qed.

(** X7. The outcome of a run and the sequence of records it logs (their
    kinds, epoch numbers and example counts) depend on [epochs],
    [batch_size], [slice_size], [valid_pct] and on whether [nn.Dropout]
    and [Adam] accept [dropout] and [lr]: not on the values of [lr] and
    [dropout] beyond that, not on the state of the random generator, not
    on what the tracking client held before. *)
Theorem run_shape_independent_of_lr_dropout (T : Torch)
    (DATA_DIR : list (Example T)) (w1 w2 : World T) :
  epochs (w_config w1) = epochs (w_config w2) →
  batch_size (w_config w1) = batch_size (w_config w2) →
  slice_size (w_config w1) = slice_size (w_config w2) →
  valid_pct (w_config w1) = valid_pct (w_config w2) →
  dropout_ok (dropout (w_config w1)) = dropout_ok (dropout (w_config w2)) →
  lr_ok (lr (w_config w1)) = lr_ok (lr (w_config w2)) →
  (train_model T DATA_DIR w1).1 = (train_model T DATA_DIR w2).1
  ∧ call_kind <$> emitted w1 (train_model T DATA_DIR w1).2
    = call_kind <$> emitted w2 (train_model T DATA_DIR w2).2.
Proof.
  intros He Hb Hs Hv Hd Hl.
  pose proof (train_model_shape T DATA_DIR w1) as H1.
  pose proof (train_model_shape T DATA_DIR w2) as H2.
  assert (Hsame : run_shape T DATA_DIR (w_config w1)
                  = run_shape T DATA_DIR (w_config w2)).
  { unfold run_shape. by rewrite He, Hb, Hs, Hv, Hd, Hl. }
  rewrite Hsame, <- H2 in H1. by injection H1 as -> ->.
Qed.

Lemma run_shape_independent_of_lr_dropout_witness :
  let w1 := toy_world (toy_config 2 (1 # 5)) [] in
  let w2 :=
    {| w_config := set_lr (1 # 3) (set_dropout 0 (toy_config 2 (1 # 5)));
       w_generator := (11 : Generator toy);
       w_wandb := [Finish] |} in
  (train_model toy (toy_data 9) w1).1 = (train_model toy (toy_data 9) w2).1
  ∧ call_kind <$> emitted w1 (train_model toy (toy_data 9) w1).2
    = call_kind <$> emitted w2 (train_model toy (toy_data 9) w2).2.
Proof.
  intros w1 w2.
  apply (run_shape_independent_of_lr_dropout toy (toy_data 9) w1 w2);
    by vm_compute.
Defined.

(** X8. Running [train_model] again right after a first run, on the
    world that run left, ends the same way and logs the same sequence of
    record kinds, epoch numbers and example counts: [example_ct] starts
    from 0 in every run and is not carried over. *)
Theorem train_model_again_same_shape (T : Torch) (DATA_DIR : list (Example T))
    (w : World T) :
  let w1 := (train_model T DATA_DIR w).2 in
  (train_model T DATA_DIR w1).1 = (train_model T DATA_DIR w).1
  ∧ call_kind <$> emitted w1 (train_model T DATA_DIR w1).2
    = call_kind <$> emitted w (train_model T DATA_DIR w).2.
Proof.
  intros w1.
  pose proof (train_model_shape T DATA_DIR w) as H0.
  pose proof (train_model_shape T DATA_DIR w1) as H1.
  assert (Hcfg : w_config w1 = w_config w) by apply train_model_config.
  rewrite Hcfg, <- H0 in H1. by injection H1 as -> ->.
Qed.

(** ** Batches and the running example count *)

Lemma chunks_upto_sizes {A} (k n : nat) (l : list A) :
  (0 < n)%nat →
  Forall (λ c, (1 ≤ length c ≤ n)%nat) (chunks_upto k n l).
Proof.
  intros Hn. revert l. induction k as [|k IH]; intros l; [by constructor |].
  destruct l as [|a l]; [by constructor |].
  cbn [chunks_upto]. constructor; [| apply IH].
  rewrite length_take. simpl. lia.
Qed.

Lemma batches_sizes {T : Torch} (dl : DataLoader T) :
  (0 < dl_batch_size dl)%nat →
  Forall (λ b : Batch T,
            1 ≤ len b.1 ≤ Z.of_nat (dl_batch_size dl)
            ∧ length b.1 = length b.2) (batches dl).
Proof.
  intros Hn. unfold batches, chunks. apply Forall_fmap.
  eapply Forall_impl; [by apply chunks_upto_sizes |].
  intros c Hc. cbn beta in Hc. unfold compose, collate, len. cbn [fst snd].
  rewrite !length_fmap. unfold Example in *. split; [lia | done].
Qed.

Lemma total_size_collate {T : Torch} (cs : list (list (Example T))) :
  total_size (collate T <$> cs) = len (concat cs).
Proof.
  induction cs as [|c cs IH]; [done |].
  rewrite fmap_cons, total_size_cons, IH. unfold collate, len. cbn [fst concat].
  rewrite length_fmap, length_app, Nat2Z.inj_add. done.
Qed.

Lemma total_size_batches {T : Torch} (dl : DataLoader T) :
  (0 < dl_batch_size dl)%nat → total_size (batches dl) = len (dataset dl).
Proof.
  intros Hn. unfold batches. by rewrite total_size_collate, chunks_concat.
Qed.

Lemma total_size_passes {T : Torch} (bs : list (Batch T)) (n : nat) :
  total_size (concat (replicate n bs)) = Z.of_nat n * total_size bs.
Proof.
  induction n as [|n IH]; [done |].
  cbn [replicate concat]. rewrite total_size_app, IH. lia.
Qed.

Lemma example_cts_last {T : Torch} (bs : list (Batch T)) ct :
  bs ≠ [] → last (example_cts ct bs) = Some (ct + total_size bs).
Proof.
  revert ct. induction bs as [|b bs IH]; intros ct Hne; [done |].
  destruct bs as [|b' bs].
  - rewrite total_size_cons. change (total_size []) with 0.
    rewrite Z.add_0_r. reflexivity.
  - cbn [example_cts]. rewrite last_cons_cons.
    cbn [example_cts] in IH. rewrite IH by done.
    f_equal. rewrite (total_size_cons b). lia.
Qed.

Lemma example_cts_steps {T : Torch} (bs : list (Batch T)) (lo hi : Z) :
  Forall (λ b : Batch T, lo ≤ len b.1 ≤ hi) bs →
  ∀ ct,
    (∀ a, example_cts ct bs !! 0%nat = Some a → lo ≤ a - ct ≤ hi)
    ∧ (∀ (k : nat) a b,
         example_cts ct bs !! k = Some a →
         example_cts ct bs !! S k = Some b → lo ≤ b - a ≤ hi).
Proof.
  induction 1 as [|b0 bs Hb0 Hbs IH]; intros ct; [done |].
  destruct (IH (ct + len b0.1)) as [IH0 IHS].
  cbn [example_cts]. split.
  - intros a [= <-]. lia.
  - intros [|k] a b; cbn [lookup list_lookup].
    + intros [= <-] Hb. apply IH0 in Hb. lia.
    + apply IHS.
Qed.

(** X9. The example counts a run logs grow by the size of one batch at
    each training step: the first count and every increase between
    consecutive counts lie between 1 and [batch_size], so the counts are
    strictly increasing. *)
Theorem example_ct_increments (T : Torch) (DATA_DIR : list (Example T))
    (w : World T) (tr va : DataLoader T) :
  get_dataloaders T DATA_DIR (batch_size (w_config w))
    (slice_size (w_config w)) (valid_pct (w_config w)) = Return (tr, va) →
  let cts :=
    logged_example_cts (call_kind <$> emitted w (train_model T DATA_DIR w).2) in
  (∀ a, cts !! 0%nat = Some a → 1 ≤ a ≤ batch_size (w_config w))
  ∧ (∀ (k : nat) a b,
       cts !! k = Some a → cts !! S k = Some b →
       1 ≤ b - a ≤ batch_size (w_config w)).
Proof.
  intros Hdl cts.
  destruct (get_dataloaders_inv T _ _ _ _ _ _ Hdl) as (Hbs & Htr & _).
  destruct (train_model_logged_cts T DATA_DIR w tr va Hdl) as (n & Hcts).
  subst cts. rewrite Hcts.
  assert (Hsizes : Forall (λ b : Batch T, 1 ≤ len b.1 ≤ batch_size (w_config w))
                     (take n (processed tr (epochs (w_config w))))).
  { apply Forall_take, Forall_concat, Forall_replicate.
    eapply Forall_impl; [apply batches_sizes; lia |].
    intros b [Hb _]. cbn beta in Hb. rewrite Htr, Z2Nat.id in Hb by lia. done. }
  destruct (example_cts_steps _ _ _ Hsizes 0) as [H0 HS].
  split; [| exact HS].
  intros a Ha. apply H0 in Ha. lia.
Qed.

Lemma example_ct_increments_witness :
  let w := toy_world (toy_config 2 (1 # 5)) [] in
  let cts :=
    logged_example_cts
      (call_kind <$> emitted w (train_model toy (toy_data 9) w).2) in
  (∀ a, cts !! 0%nat = Some a → 1 ≤ a ≤ 2)
  ∧ (∀ (k : nat) a b,
       cts !! k = Some a → cts !! S k = Some b → 1 ≤ b - a ≤ 2).
Proof.
  intros w.
  apply (example_ct_increments toy (toy_data 9) w
           {| dataset := toy_data 6; dl_batch_size := 2 |}
           {| dataset := drop 6 (toy_data 7); dl_batch_size := 2 |}).
  reflexivity.
Defined.

(** X10. A run of at least one epoch over a non-empty training set that
    meets no batch of one, no empty validation set and no refusal of its
    hyperparameters ends with [example_ct] equal to the epoch count times
    the number of training examples: every example is counted once per
    epoch. *)
Theorem final_example_ct (T : Torch) (DATA_DIR : list (Example T))
    (w : World T) (tr va : DataLoader T) (steps : Z) :
  get_dataloaders T DATA_DIR (batch_size (w_config w))
    (slice_size (w_config w)) (valid_pct (w_config w)) = Return (tr, va) →
  n_steps_per_epoch tr (batch_size (w_config w)) = Return steps →
  dropout_ok (dropout (w_config w)) = true →
  lr_ok (lr (w_config w)) = true →
  trainable (batches tr) = true →
  dataset va ≠ [] →
  dataset tr ≠ [] →
  0 < epochs (w_config w) →
  last (logged_example_cts
          (call_kind <$> emitted w (train_model T DATA_DIR w).2))
  = Some (epochs (w_config w) * len (dataset tr)).
Proof.
  intros Hdl Hsteps Hd Hl Htrain Hva Htr Hpos.
  destruct (get_dataloaders_inv T _ _ _ _ _ _ Hdl) as (Hbs & Hsize & _).
  destruct (train_model_completes T DATA_DIR w tr va Hdl _ Hsteps Hd Hl
              (or_intror (conj Htrain Hva)))
    as (g' & calls & -> & Hk).
  cbn [snd]. rewrite emitted_app, Hk, run_kinds_logged_cts.
  assert (Hne : batches tr ≠ []).
  { unfold batches. intros Hnil. apply fmap_nil_inv, chunks_nil_inv in Hnil.
    done. }
  rewrite example_cts_last.
  - rewrite total_size_passes, total_size_batches by lia.
    f_equal. lia.
  - destruct (Z.to_nat (epochs (w_config w))) as [|n] eqn:En; [lia |].
    cbn [replicate concat]. destruct (batches tr); done.
Qed.

Lemma final_example_ct_witness :
  let w := toy_world (toy_config 2 (1 # 5)) [] in
  last (logged_example_cts
          (call_kind <$> emitted w (train_model toy (toy_data 9) w).2))
  = Some (2 * 6).
Proof.
  intros w.
  apply (final_example_ct toy (toy_data 9) w
           {| dataset := toy_data 6; dl_batch_size := 2 |}
           {| dataset := drop 6 (toy_data 7); dl_batch_size := 2 |} 3).
  - reflexivity.
  - by vm_compute.
  - by vm_compute.
  - by vm_compute.
  - by vm_compute.
  - vm_compute. discriminate.
  - vm_compute. discriminate.
  - simpl. lia.
Defined.

Lemma logged_epochs_train e (cts : list Z) :
  logged_epochs (KTrain e <$> cts) = replicate (length cts) e.
Proof.
  unfold logged_epochs.
  induction cts as [|c cts IH]; csimpl; [done | by rewrite IH].
Qed.

Lemma logged_epochs_epochs_kinds {T : Torch} ct (bs : list (Batch T)) es :
  logged_epochs (epochs_kinds ct bs es)
  = es ≫= λ e, replicate (length bs) (e + 1).
Proof.
  revert ct. induction es as [|e es IH]; intros ct; [done |].
  cbn [epochs_kinds]. rewrite bind_cons, <- (IH (ct + total_size bs)).
  unfold epoch_kinds, logged_epochs. rewrite !omap_app.
  fold (logged_epochs (KTrain (e + 1) <$> example_cts ct bs)).
  rewrite logged_epochs_train, example_cts_length, <- app_assoc. done.
Qed.

(** X11. In a run that meets no batch of one, no empty validation set and
    no refusal of its hyperparameters, the epoch numbers logged with the
    training records are 1, 2, ..., [epochs] in this order, each of them
    once per training batch. *)
Theorem logged_epochs_of_run (T : Torch) (DATA_DIR : list (Example T))
    (w : World T) (tr va : DataLoader T) (steps : Z) :
  get_dataloaders T DATA_DIR (batch_size (w_config w))
    (slice_size (w_config w)) (valid_pct (w_config w)) = Return (tr, va) →
  n_steps_per_epoch tr (batch_size (w_config w)) = Return steps →
  dropout_ok (dropout (w_config w)) = true →
  lr_ok (lr (w_config w)) = true →
  trainable (batches tr) = true →
  dataset va ≠ [] →
  logged_epochs (call_kind <$> emitted w (train_model T DATA_DIR w).2)
  = range (epochs (w_config w))
      ≫= λ e, replicate (length (batches tr)) (e + 1).
Proof.
  intros Hdl Hsteps Hd Hl Htrain Hva.
  destruct (train_model_completes T DATA_DIR w tr va Hdl _ Hsteps Hd Hl
              (or_intror (conj Htrain Hva)))
    as (g' & calls & -> & Hk).
  cbn [snd]. rewrite emitted_app, Hk.
  unfold run_kinds, logged_epochs. cbn [omap list_omap].
  rewrite omap_app. cbn [omap list_omap]. rewrite app_nil_r.
  apply logged_epochs_epochs_kinds.
Qed.

Lemma logged_epochs_of_run_witness :
  let w := toy_world (toy_config 2 (1 # 5)) [] in
  logged_epochs (call_kind <$> emitted w (train_model toy (toy_data 9) w).2)
  = [1; 1; 1; 2; 2; 2].
Proof.
  intros w.
  apply (logged_epochs_of_run toy (toy_data 9) w
           {| dataset := toy_data 6; dl_batch_size := 2 |}
           {| dataset := drop 6 (toy_data 7); dl_batch_size := 2 |} 3).
  - reflexivity.
  - by vm_compute.
  - by vm_compute.
  - by vm_compute.
  - by vm_compute.
  - vm_compute. discriminate.
Defined.

(** X12. [n_steps_per_epoch] raises [ZeroDivisionError] for a batch size
    of 0; for a positive batch size, with both sizes below 2^53, it is the
    least number of batches of that size that hold the training set:
    [steps - 1] batches are too few and [steps] are enough.  The bound
    matters, the quotient being a double: [(2^53 + 1) / 2] is 2^52, one
    less than the ceiling of the exact quotient. *)
Theorem n_steps_per_epoch_least_cover (T : Torch) (train_dl : DataLoader T)
    (bs : Z) :
  (bs = 0 → n_steps_per_epoch train_dl bs = Raise ZeroDivisionError)
  ∧ (0 < bs < 2 ^ 53 → len (dataset train_dl) < 2 ^ 53 →
     ∃ steps,
       n_steps_per_epoch train_dl bs = Return steps
       ∧ (steps - 1) * bs < len (dataset train_dl) ≤ steps * bs)
  ∧ match int_true_div (2 ^ 53 + 1) 2 with
    | Return q => math_ceil q = 2 ^ 52
    | Raise _ => False
    end.
Proof.
  split; [| split].
  - intros ->. reflexivity.
  - intros Hbs Hlen. unfold n_steps_per_epoch.
    destruct (int_true_div_ceiling (len (dataset train_dl)) bs)
      as (r & -> & Hr); [unfold len in *; lia | done |].
    eexists. split; [reflexivity |]. rewrite Hr.
    set (N := len (dataset train_dl)).
    pose proof (Z.div_mod (N + bs - 1) bs ltac:(lia)) as Hdm.
    pose proof (Z.mod_pos_bound (N + bs - 1) bs ltac:(lia)) as Hm.
    nia.
  - by vm_compute.
Qed.

(** ** The evaluator on an example-wise model *)

Section Examplewise.
Context {T : Torch}.
Variable model : Model T.
Variable score : Image T → list Q.
Hypothesis Hscore : scores_examplewise (params model) score.

Lemma zip_scores (c : list (Example T)) :
  zip (score <$> c.*1) c.*2 = (λ ex : Example T, (score ex.1, ex.2)) <$> c.
Proof.
  induction c as [|[x y] c IH]; [done |]. csimpl. by rewrite IH.
Qed.

Lemma filter_fmap_length {A B} (g : A → B) (P : B → Prop)
    `{!∀ y, Decision (P y)} (l : list A) :
  length (filter P (g <$> l)) = length (filter (λ x, P (g x)) l).
Proof.
  induction l as [|x l IH]; [done |].
  rewrite fmap_cons, !filter_cons.
  destruct (decide (P (g x))); simpl; by rewrite IH.
Qed.

Lemma correct_examplewise (cs : list (list (Example T))) :
  correct_examples model (collate T <$> cs) = dataset_correct score (concat cs).
Proof.
  unfold correct_examples, dataset_correct, scored_examples, len. f_equal.
  induction cs as [|c cs IH]; [done |].
  rewrite fmap_cons, bind_cons. cbn [concat].
  rewrite !filter_app, !length_app, IH. f_equal.
  unfold collate. cbn [fst snd].
  by rewrite Hscore, zip_scores, filter_fmap_length.
Qed.
End Examplewise.

(** X13. The accuracy does not depend on how the validation set is
    batched: when the model, in evaluation mode, scores each example on
    its own, [validate_model] returns as accuracy the fraction of the
    examples of the validation set that are classified as labelled, for
    every positive batch size. *)
Theorem validate_model_examplewise (T : Torch) (model : Model T)
    (loss_func : Outputs T → list Z → Loss T) (valid_dl : DataLoader T)
    (score : Image T → list Q) (w : World T) :
  scores_examplewise (params model) score →
  (0 < dl_batch_size valid_dl)%nat →
  dataset valid_dl ≠ [] →
  ∃ mean_loss,
    validate_model model valid_dl loss_func w
    = (Return (mean_loss,
               (inject_Z (dataset_correct score (dataset valid_dl))
                / inject_Z (len (dataset valid_dl)))%Q),
       seeded w).
Proof.
  intros Hscore Hbs Hne.
  destruct (validate_model_run T model valid_dl loss_func w) as (vl & Hvl & ->).
  rewrite !true_div_nonzero by by apply inject_Z_len_nonzero.
  eexists. unfold batches, chunks in *.
  rewrite (correct_examplewise model score Hscore).
  by rewrite chunks_upto_concat.
Qed.

Lemma validate_model_examplewise_witness :
  let valid_dl := Build_DataLoader toy (toy_data 5) 2 in
  let w := toy_world (toy_config 1 (1 # 5)) [] in
  ∃ mean_loss,
    validate_model toy_model valid_dl (CrossEntropyLoss toy) w
    = (Return (mean_loss,
               (inject_Z (dataset_correct (T:=toy) (toy_score 1) (toy_data 5))
                / inject_Z (len (toy_data 5)))%Q),
       seeded w).
Proof.
  intros valid_dl w.
  apply (validate_model_examplewise toy toy_model (CrossEntropyLoss toy)
           valid_dl (toy_score 1) w).
  - intros images. reflexivity.
  - simpl. lia.
  - vm_compute. discriminate.
Defined.

(** ** The notebook's five runs *)

Lemma init_configs_length (calls : list Call) :
  length (init_configs calls)
  = length (filter (λ k, k = KInit) (call_kind <$> calls)).
Proof.
  unfold init_configs. induction calls as [|c calls IH]; [done |].
  rewrite fmap_cons, filter_cons. destruct c as [p cfg | m |].
  - cbn [omap list_omap call_kind]. rewrite decide_True by done.
    cbn [length]. by rewrite <- IH.
  - cbn [omap list_omap]. rewrite decide_False; [exact IH |].
    unfold call_kind. by repeat case_match.
  - cbn [omap list_omap call_kind]. by rewrite decide_False.
Qed.

Lemma run_bind_return {T : Torch} {A B} (c : M T A) (k : A → M T B)
    (w w' : World T) (a : A) :
  c w = (Return a, w') → bind c k w = k a w'.
Proof. intros Hc. by rewrite run_bind, Hc. Qed.

Lemma run_setattr {T : Torch} {B} (update : Configuration → Configuration)
    (k : () → M T B) (w : World T) :
  bind (setattr update) k w
  = k () {| w_config := update (w_config w); w_generator := w_generator w;
            w_wandb := w_wandb w |}.
Proof. reflexivity. Qed.

(** One run on the notebook's data settings. *)
Lemma scenario_run (T : Torch) (DATA_DIR : list (Example T)) (w : World T) :
  10000 ≤ len DATA_DIR →
  batch_size (w_config w) = 128 →
  slice_size (w_config w) = 10000 →
  valid_pct (w_config w) = 1 # 5 →
  dropout_ok (dropout (w_config w)) = true →
  lr_ok (lr (w_config w)) = true →
  ∃ g' calls,
    train_model T DATA_DIR w
    = (Return (),
       {| w_config := w_config w; w_generator := g';
          w_wandb := w_wandb w ++ calls |})
    ∧ init_configs calls = [w_config w]
    ∧ length (filter is_train (call_kind <$> calls))
      = (Z.to_nat (epochs (w_config w)) * 63)%nat
    ∧ length (filter is_val (call_kind <$> calls))
      = Z.to_nat (epochs (w_config w))
    ∧ length (filter (λ k, k = KFinish) (call_kind <$> calls)) = 1%nat.
Proof.
  intros Hlen Hbs Hss Hvp Hd Hl.
  destruct (example_scenario_loaders T DATA_DIR Hlen)
    as (tr & va & Hdl & Htr & Hva).
  rewrite <- Hbs, <- Hss, <- Hvp in Hdl.
  assert (Hne : dataset va ≠ []).
  { intros Hnil. rewrite Hnil in Hva. discriminate. }
  destruct (get_dataloaders_inv T _ _ _ _ _ _ Hdl) as (_ & Hsize & _).
  assert (Hn : n_steps_per_epoch tr (batch_size (w_config w))
               = Return (len (batches tr))).
  { apply n_steps_per_epoch_run; [rewrite Hbs; lia | done | rewrite Htr; lia]. }
  assert (Htrain : trainable (batches tr) = true).
  { apply (trainable_batches tr 128);
      [lia | by rewrite <- Hbs | by rewrite Htr]. }
  destruct (train_model_completes T DATA_DIR w tr va Hdl _ Hn Hd Hl
              (or_intror (conj Htrain Hne)))
    as (g' & calls & Hrun & Hk).
  assert (Hsteps : length (batches tr) = 63%nat).
  { apply Nat2Z.inj. fold (len (batches tr)).
    rewrite batches_length, Hsize, Htr, Hbs by (rewrite Hsize, Hbs; lia).
    reflexivity. }
  exists g', calls. split; [exact Hrun |].
  rewrite Hk.
  rewrite (count_run_kinds is_train 1 0 0 0) by done.
  rewrite (count_run_kinds is_val 0 1 0 0) by done.
  rewrite (count_run_kinds (λ k, k = KFinish) 0 0 0 1) by done.
  rewrite Hsteps. split; [| lia].
  destruct (train_model_first_call T DATA_DIR w) as (rest & Hfirst).
  rewrite Hrun in Hfirst. cbn [snd w_wandb] in Hfirst.
  apply app_inv_head in Hfirst. subst calls.
  assert (Hnone : length (init_configs rest) = 0%nat).
  { rewrite init_configs_length.
    pose proof (count_run_kinds (λ k, k = KInit) 0 0 1 0 (batches tr)
                  (epochs (w_config w)) ltac:(done) ltac:(done)
                  ltac:(done) ltac:(done)) as Hcount.
    rewrite <- Hk, fmap_cons, filter_cons in Hcount.
    cbn [call_kind] in Hcount. rewrite decide_True in Hcount by done.
    cbn [length] in Hcount. lia. }
  unfold init_configs in *. cbn [omap list_omap].
  by rewrite (nil_length_inv _ Hnone).
Qed.

(** Take the next call of [train_model] in the goal through
    [scenario_run]. *)
Ltac next_run Hlen :=
  lazymatch goal with
  | |- context [bind (train_model ?T ?D) _ ?w1] =>
      let g := fresh "g" in
      let calls := fresh "calls" in
      let Hrun := fresh "Hrun" in
      let Hi := fresh "Hi" in
      let Ht := fresh "Ht" in
      let Hv := fresh "Hv" in
      let Hf := fresh "Hf" in
      destruct (scenario_run T D w1 Hlen eq_refl eq_refl eq_refl eq_refl eq_refl)
        as (g & calls & Hrun & Hi & Ht & Hv & Hf);
      cbn [w_config w_generator w_wandb] in Hrun, Hi, Ht, Hv, Hf
  | |- context [train_model ?T ?D ?w1] =>
      let g := fresh "g" in
      let calls := fresh "calls" in
      let Hrun := fresh "Hrun" in
      let Hi := fresh "Hi" in
      let Ht := fresh "Ht" in
      let Hv := fresh "Hv" in
      let Hf := fresh "Hf" in
      destruct (scenario_run T D w1 Hlen eq_refl eq_refl eq_refl eq_refl eq_refl)
        as (g & calls & Hrun & Hi & Ht & Hv & Hf);
      cbn [w_config w_generator w_wandb] in Hrun, Hi, Ht, Hv, Hf
  end.

(** X14. On a store of at least 10000 examples the notebook's cells 8 to
    12 all return: the tracking client receives five complete runs, opened
    with learning rates 1e-5, 1e-4, 1e-4, 1e-4 and 1e-3 (the second cell
    sets 1e-4), the first three over 2 epochs and the last two over 1
    epoch with dropout 0.1; together they log 504 training records and 8
    validation records, and the [config] object ends with [epochs=1],
    [lr=1e-3], [dropout=0.1] and its other fields as the third cell set
    them. *)
Theorem notebook_session (T : Torch) (DATA_DIR : list (Example T))
    (w : World T) :
  10000 ≤ len DATA_DIR →
  let c1 := config in
  let c2 := set_lr (1 # 10000) c1 in
  let c4 := set_epochs 1 (set_dropout (1 # 10) c2) in
  let c5 := set_lr (1 # 1000) c4 in
  ∃ w',
    notebook T DATA_DIR w = (Return (), w')
    ∧ w_config w' = c5
    ∧ init_configs (emitted w w') = [c1; c2; c2; c4; c5]
    ∧ length (filter is_train (call_kind <$> emitted w w')) = 504%nat
    ∧ length (filter is_val (call_kind <$> emitted w w')) = 8%nat
    ∧ length (filter (λ k, k = KFinish) (call_kind <$> emitted w w')) = 5%nat.
Proof.
  intros Hlen c1 c2 c4 c5. unfold notebook.
  rewrite run_setattr. cbn [w_config w_generator w_wandb].
  next_run Hlen. rewrite (run_bind_return _ _ _ _ _ Hrun).
  rewrite run_setattr. cbn [w_config w_generator w_wandb].
  next_run Hlen. rewrite (run_bind_return _ _ _ _ _ Hrun0).
  rewrite run_setattr. cbn [w_config w_generator w_wandb].
  next_run Hlen. rewrite (run_bind_return _ _ _ _ _ Hrun1).
  rewrite !run_setattr. cbn [w_config w_generator w_wandb].
  next_run Hlen. rewrite (run_bind_return _ _ _ _ _ Hrun2).
  rewrite run_setattr. cbn [w_config w_generator w_wandb].
  next_run Hlen. rewrite Hrun3.
  eexists. split; [reflexivity |]. split; [reflexivity |].
  unfold emitted. cbn [w_wandb]. rewrite <- !app_assoc, drop_app_length.
  unfold init_configs in *.
  rewrite !fmap_app, !filter_app, !length_app, !omap_app.
  rewrite Hi, Hi0, Hi1, Hi2, Hi3, Ht, Ht0, Ht1, Ht2, Ht3,
    Hv, Hv0, Hv1, Hv2, Hv3, Hf, Hf0, Hf1, Hf2, Hf3.
  repeat split; reflexivity.
Qed.

Lemma notebook_session_witness :
  let w := toy_world (toy_config 0 0) [Finish] in
  let c1 := config in
  let c2 := set_lr (1 # 10000) c1 in
  let c4 := set_epochs 1 (set_dropout (1 # 10) c2) in
  let c5 := set_lr (1 # 1000) c4 in
  ∃ w',
    notebook toy (toy_data (Z.to_nat 10000)) w = (Return (), w')
    ∧ w_config w' = c5
    ∧ init_configs (emitted w w') = [c1; c2; c2; c4; c5]
    ∧ length (filter is_train (call_kind <$> emitted w w')) = 504%nat
    ∧ length (filter is_val (call_kind <$> emitted w w')) = 8%nat
    ∧ length (filter (λ k, k = KFinish) (call_kind <$> emitted w w')) = 5%nat.
Proof.
  intros w.
  apply (notebook_session toy (toy_data (Z.to_nat 10000)) w).
  by vm_compute.
Defined.

(** ** Perfect accuracy *)

Lemma filter_length_all {A} (P : A → Prop) `{!∀ x, Decision (P x)} (l : list A) :
  length (filter P l) = length l ↔ Forall P l.
Proof.
  induction l as [|x l IH]; [by split; [constructor |] |].
  rewrite filter_cons. destruct (decide (P x)) as [HP|HP]; cbn [length].
  - rewrite Forall_cons. split.
    + intros [= Hlen]. split; [done | by apply IH].
    + intros [_ Hall]. f_equal. by apply IH.
  - pose proof (length_filter P l). split; [lia |].
    intros Hall. by apply Forall_cons in Hall as [? _].
Qed.

Lemma Qdiv_inject_one (a n : Z) :
  0 < n → (inject_Z a / inject_Z n == 1)%Q ↔ a = n.
Proof.
  intros Hn.
  assert (Hnz : ¬ (inject_Z n == 0)%Q) by (unfold Qeq; simpl; lia).
  rewrite <- inject_Z_injective. split.
  - intros Hdiv.
    rewrite <- (Qmult_1_l (inject_Z n)), <- Hdiv. by field.
  - intros ->. by field.
Qed.

(** X15. For a model that scores each example on its own, the accuracy
    [validate_model] returns is 1 exactly when every example of the
    validation set is classified as labelled. *)
Theorem validate_model_accuracy_one (T : Torch) (model : Model T)
    (loss_func : Outputs T → list Z → Loss T) (valid_dl : DataLoader T)
    (score : Image T → list Q) (w : World T) :
  scores_examplewise (params model) score →
  (0 < dl_batch_size valid_dl)%nat →
  dataset valid_dl ≠ [] →
  ∃ mean_loss accuracy,
    validate_model model valid_dl loss_func w
    = (Return (mean_loss, accuracy), seeded w)
    ∧ ((accuracy == 1)%Q
       ↔ Forall (λ ex : Example T, argmax (score ex.1) = ex.2) (dataset valid_dl)).
Proof.
  intros Hscore Hbs Hne.
  destruct (validate_model_run T model valid_dl loss_func w) as (vl & _ & ->).
  rewrite !true_div_nonzero by by apply inject_Z_len_nonzero.
  eexists _, _. split; [done |].
  unfold batches, chunks.
  rewrite (correct_examplewise model score Hscore), chunks_upto_concat by done.
  rewrite <- filter_length_all. unfold dataset_correct, len.
  rewrite Qdiv_inject_one.
  - split; [apply Nat2Z.inj | by intros ->].
  - destruct (dataset valid_dl); [done | simpl; lia].
Qed.

Lemma validate_model_accuracy_one_witness :
  let model := Build_Model toy true 1 in
  let valid_dl := Build_DataLoader toy [(0, 1); (1, 1); (5, 0)] 2 in
  let w := toy_world (toy_config 1 (1 # 5)) [] in
  ∃ mean_loss accuracy,
    validate_model model valid_dl (CrossEntropyLoss toy) w
      = (Return (mean_loss, accuracy), seeded w)
    ∧ ((accuracy == 1)%Q
       ↔ Forall (λ ex : Example toy, argmax (toy_score 1 ex.1) = ex.2)
           [(0, 1); (1, 1); (5, 0)]).
Proof.
  intros model valid_dl w.
  apply (validate_model_accuracy_one toy model (CrossEntropyLoss toy) valid_dl
           (toy_score 1) w).
  - intros images. reflexivity.
  - simpl. lia.
  - discriminate.
Defined.
